(** * Kaleidoscope front end: the lexer of [Lexer.cpp] and the prototype node of [AST.h]

    A shallow embedding of [lexer::Lexer::gettok] and of the [PrototypeAST]
    node, with the properties of the specification proved over it.

    Characters are the [int] values the C library hands out: [getchar]
    yields an [unsigned char] widened to [int], or [EOF].  The standard
    input is a finite string of bytes not read yet. *)

From Stdlib Require Import ZArith NArith QArith Bool List String Ascii Lia.
Import ListNotations.

Local Open Scope string_scope.
Local Open Scope list_scope.
Local Open Scope Z_scope.

(** ** Characters and the classification functions of <cctype> *)

(** [EOF] of <cstdio>. *)
Definition EOF : Z := -1.

(** An [unsigned char] read from the stream, widened to [int]. *)
Definition code (c : ascii) : Z := Z.of_N (N_of_ascii c).

(** The conversion [int] -> [char] of [identifierStr_ = LastChar] and
    [NumStr += LastChar]: the value modulo 2^8. *)
Definition char_of_int (z : Z) : ascii := ascii_of_N (Z.to_N (z mod 256)).

(** <cctype> in the "C" locale (the program never calls [setlocale]). *)
Definition isspace (c : Z) : bool := (c =? 32) || ((9 <=? c) && (c <=? 13)).
Definition isupper (c : Z) : bool := (65 <=? c) && (c <=? 90).
Definition islower (c : Z) : bool := (97 <=? c) && (c <=? 122).
Definition isalpha (c : Z) : bool := isupper c || islower c.
Definition isdigit (c : Z) : bool := (48 <=? c) && (c <=? 57).
Definition isalnum (c : Z) : bool := isalpha c || isdigit c.

(** The bytes of a string as [getchar] returns them. *)
Fixpoint codes (s : string) : list Z :=
  match s with
  | EmptyString => []
  | String c r => code c :: codes r
  end.

(** ** What [Lexer.h] and <cstdlib> provide

    [Lexer.h] is not among the sources: of its token enumeration only the
    enumerators named in [gettok] are known, not their integer values,
    which are therefore a parameter. *)
Class TokenKinds := {
  tok_eof : Z;
  tok_def : Z;
  tok_extern : Z;
  tok_identifier : Z;
  tok_number : Z;
  tok_if : Z;
  tok_then : Z;
  tok_else : Z;
  tok_for : Z;
  tok_in : Z;
  tok_binary : Z;
  tok_unary : Z;
  tok_var : Z
}.

(** [double] and [strtod (s, nullptr)] of the C library: binary floating
    point is not modelled, the conversion is a parameter. *)
Class LibC := {
  double : Type;
  strtod : string -> double
}.

(** ** State *)

(** The data members of a [Lexer] object. *)
Record Lexer {LC : LibC} := mkLexer {
  identifierStr_ : string;
  numVal_ : double
}.

(** What is shared by the whole process: the function-local
    [static int LastChar] of [gettok] and the standard input. *)
Record Process := mkProcess {
  LastChar : Z;
  stdin : string
}.

(** [static int LastChar = ' ';] before the first call, on a given input. *)
Definition start (input : string) : Process :=
  {| LastChar := code " "; stdin := input |}.

(** [getchar ()]: the next byte, or [EOF] once the input is used up. *)
Definition getchar (stdin : string) : Z * string :=
  match stdin with
  | EmptyString => (EOF, EmptyString)
  | String c rest => (code c, rest)
  end.

(** The characters still to be scanned: the pending one, then the input. *)
Definition unread (p : Process) : list Z := LastChar p :: codes (stdin p).

Section Lexer.

Context {TK : TokenKinds} {LC : LibC}.

(** [Lexer::advance]: [int LastChar = getchar (); return LastChar;]. *)
Definition advance (stdin : string) : Z * string := getchar stdin.

(** [Lexer::Lexer () {}]: the body is empty; [identifierStr_] is the empty
    [std::string], [numVal_] is left with whatever [indeterminate] value
    the storage holds.  The process state is passed through untouched. *)
Definition Lexer_ctor (indeterminate : double) (p : Process) : Lexer * Process :=
  ({| identifierStr_ := ""; numVal_ := indeterminate |}, p).

Definition getNum (this : Lexer) : double := numVal_ this.
Definition getId (this : Lexer) : string := identifierStr_ this.

(** [while (isspace (LastChar)) LastChar = advance ();] *)
Fixpoint skip_space (LastChar : Z) (stdin : string) : Z * string :=
  if isspace LastChar then
    match stdin with
    | EmptyString => (EOF, EmptyString)
    | String c rest => skip_space (code c) rest
    end
  else (LastChar, stdin).

(** [while (isalnum ((LastChar = getchar ()))) identifierStr_ += LastChar;]
    returns the identifier, the new [LastChar] and the input left. *)
Fixpoint read_identifier (id : string) (stdin : string) : string * Z * string :=
  match stdin with
  | EmptyString => (id, EOF, EmptyString)
  | String c rest =>
      if isalnum (code c)
      then read_identifier (id ++ String (char_of_int (code c)) "")%string rest
      else (id, code c, rest)
  end.

(** [do { NumStr += LastChar; LastChar = getchar (); }
     while (isdigit (LastChar) || LastChar == '.');] *)
Fixpoint read_number (NumStr : string) (LastChar : Z) (stdin : string)
  : string * Z * string :=
  let NumStr := (NumStr ++ String (char_of_int LastChar) "")%string in
  match stdin with
  | EmptyString => (NumStr, EOF, EmptyString)
  | String c rest =>
      if isdigit (code c) || (code c =? code ".")
      then read_number NumStr (code c) rest
      else (NumStr, code c, rest)
  end.

(** [do { LastChar = getchar (); }
     while (LastChar != EOF && LastChar != '\n' && LastChar != '\r');] *)
Fixpoint skip_comment (stdin : string) : Z * string :=
  match stdin with
  | EmptyString => (EOF, EmptyString)
  | String c rest =>
      if negb (code c =? EOF) && negb (code c =? 10) && negb (code c =? 13)
      then skip_comment rest
      else (code c, rest)
  end.

(** The chain of comparisons of [identifierStr_] with the keywords. *)
Definition keyword_or_identifier (id : string) : Z :=
  if String.eqb id "def" then tok_def
  else if String.eqb id "extern" then tok_extern
  else if String.eqb id "if" then tok_if
  else if String.eqb id "then" then tok_then
  else if String.eqb id "else" then tok_else
  else if String.eqb id "for" then tok_for
  else if String.eqb id "in" then tok_in
  else if String.eqb id "unary" then tok_unary
  else if String.eqb id "binary" then tok_binary
  else if String.eqb id "var" then tok_var
  else tok_identifier.

(** The end of [gettok], reached when [LastChar] starts neither a word, a
    number nor a comment that ends in a line break:
    [if (LastChar == EOF) return tok_eof;
     int ThisChar = LastChar; LastChar = advance (); return ThisChar;] *)
Definition eof_or_char (this : Lexer) (LastChar : Z) (stdin : string)
  : Z * Lexer * Process :=
  if LastChar =? EOF
  then (tok_eof, this, {| LastChar := LastChar; stdin := stdin |})
  else
    let ThisChar := LastChar in
    let '(LastChar, stdin) := advance stdin in
    (ThisChar, this, {| LastChar := LastChar; stdin := stdin |}).

(** [Lexer::gettok].  [depth] bounds the nesting of [return gettok ();]
    after a comment; [None] stands for a nesting deeper than that. *)
Fixpoint gettok_rec (depth : nat) (this : Lexer) (p : Process)
  : option (Z * Lexer * Process) :=
  match depth with
  | O => None
  | S depth =>
      let '(LastChar, stdin) := skip_space (LastChar p) (stdin p) in
      if isalpha LastChar then
        let '(id, LastChar, stdin) :=
          read_identifier (String (char_of_int LastChar) "") stdin in
        Some (keyword_or_identifier id,
              {| identifierStr_ := id; numVal_ := numVal_ this |},
              {| LastChar := LastChar; stdin := stdin |})
      else if isdigit LastChar || (LastChar =? code ".") then
        let '(NumStr, LastChar, stdin) := read_number "" LastChar stdin in
        Some (tok_number,
              {| identifierStr_ := identifierStr_ this; numVal_ := strtod NumStr |},
              {| LastChar := LastChar; stdin := stdin |})
      else if LastChar =? code "#" then
        let '(LastChar, stdin) := skip_comment stdin in
        if negb (LastChar =? EOF)
        then gettok_rec depth this {| LastChar := LastChar; stdin := stdin |}
        else Some (eof_or_char this LastChar stdin)
      else Some (eof_or_char this LastChar stdin)
  end.

(** A call of [gettok]: one more level of nesting than there are bytes left
    is always enough (see [gettok_rec_enough]). *)
Definition gettok (this : Lexer) (p : Process) : option (Z * Lexer * Process) :=
  gettok_rec (S (String.length (stdin p))) this p.

(** [n] successive calls of [gettok] on one [Lexer]; the kinds returned. *)
Fixpoint calls (n : nat) (this : Lexer) (p : Process)
  : option (list Z * Lexer * Process) :=
  match n with
  | O => Some ([], this, p)
  | S n =>
      match gettok this p with
      | None => None
      | Some (k, this, p) =>
          match calls n this p with
          | None => None
          | Some (ks, this, p) => Some (k :: ks, this, p)
          end
      end
  end.

(** Successive calls of [gettok] on two [Lexer] objects [a] and [b] of one
    process: each entry of [schedule] says which object makes the call
    ([true] for [a]). *)
Fixpoint calls_on (schedule : list bool) (a b : Lexer) (p : Process)
  : option (list Z * Lexer * Lexer * Process) :=
  match schedule with
  | [] => Some ([], a, b, p)
  | true :: schedule =>
      match gettok a p with
      | None => None
      | Some (k, a, p) =>
          match calls_on schedule a b p with
          | None => None
          | Some (ks, a, b, p) => Some (k :: ks, a, b, p)
          end
      end
  | false :: schedule =>
      match gettok b p with
      | None => None
      | Some (k, b, p) =>
          match calls_on schedule a b p with
          | None => None
          | Some (ks, a, b, p) => Some (k :: ks, a, b, p)
          end
      end
  end.

(** The keyword set of the specification, each with its kind. *)
Definition keywords : list (string * Z) :=
  [ ("def", tok_def); ("extern", tok_extern); ("if", tok_if);
    ("then", tok_then); ("else", tok_else); ("for", tok_for);
    ("in", tok_in); ("unary", tok_unary); ("binary", tok_binary);
    ("var", tok_var) ].

(** The kinds [gettok] returns for a word: a keyword or an identifier. *)
Definition word_kinds : list Z := tok_identifier :: map snd keywords.

(** What a result of [gettok] shows outside the [Lexer] object. *)
Definition observable (r : option (Z * Lexer * Process)) : option (Z * Process) :=
  match r with
  | Some (k, _, p) => Some (k, p)
  | None => None
  end.

End Lexer.

(** Tests on one character, as [gettok] writes them. *)
Definition numeric (c : Z) : bool := isdigit c || (c =? code ".").
Definition in_comment (c : Z) : bool := negb (c =? 10) && negb (c =? 13).

(** ** One numbering of the kinds, one conversion

    Used to run the lexer on concrete inputs: thirteen distinct negative
    kinds, and the exact decimal value of the longest prefix
    [digits [. digits]] of the text, which is the number [strtod] rounds. *)
Definition sample_kinds : TokenKinds :=
  {| tok_eof := -1; tok_def := -2; tok_extern := -3; tok_identifier := -4;
     tok_number := -5; tok_if := -6; tok_then := -7; tok_else := -8;
     tok_for := -9; tok_in := -10; tok_binary := -11; tok_unary := -12;
     tok_var := -13 |}.

Fixpoint decimal_fraction (num : Z) (den : positive) (s : string) : Q :=
  match s with
  | EmptyString => num # den
  | String c rest =>
      if isdigit (code c)
      then decimal_fraction (10 * num + (code c - 48)) (10 * den) rest
      else num # den
  end.

Fixpoint decimal_value (int : Z) (s : string) : Q :=
  match s with
  | EmptyString => int # 1
  | String c rest =>
      if isdigit (code c) then decimal_value (10 * int + (code c - 48)) rest
      else if code c =? code "." then decimal_fraction int 1 rest
      else int # 1
  end.

Definition decimal_libc : LibC :=
  {| double := Q; strtod := decimal_value 0 |}.

(** A [Lexer] as the constructor leaves it, for these runs. *)
Definition sample_lexer : @Lexer decimal_libc :=
  fst (@Lexer_ctor decimal_libc 0%Q (start "")).

(** The input [1 # c\n2] of the specification; byte 10 is the line feed. *)
Definition one_comment_two : string := "1 # c" ++ String "010" "2".

(** ** The prototype node of [AST.h] *)

Module AST.

(** The data members of [class PrototypeAST]; [unsigned precedence_] is a
    natural number below 2^32. *)
Record PrototypeAST := mkPrototypeAST {
  name_ : string;
  args_ : list string;
  is_operator_ : bool;
  precedence_ : N
}.

(** Modelled from the spec: the constructor
    [PrototypeAST (std::string name, Args args, bool is_operator = false,
    unsigned precedence = 0)] is only declared in [AST.h]; it stores its
    four arguments ("Prototype (name, ordered parameter names, optional
    operator flag + precedence)"). *)
Definition PrototypeAST_ctor (name : string) (args : list string)
    (is_operator : bool) (precedence : N) : PrototypeAST :=
  {| name_ := name; args_ := args;
     is_operator_ := is_operator; precedence_ := precedence |}.

(** The default arguments of the declaration. *)
Definition PrototypeAST_ctor_default (name : string) (args : list string)
  : PrototypeAST :=
  PrototypeAST_ctor name args false 0%N.

(** Modelled from the spec: [isUnary] is only declared in [AST.h];
    "precedence is meaningful only when the operator flag is set; arity
    1 = unary", the arity being the parameter count. *)
Definition isUnary (p : PrototypeAST) : bool :=
  is_operator_ p && (List.length (args_ p) =? 1)%nat.

(** Modelled from the spec: [isBinary] is only declared in [AST.h];
    with the operator flag set, "arity ... 2 = binary". *)
Definition isBinary (p : PrototypeAST) : bool :=
  is_operator_ p && (List.length (args_ p) =? 2)%nat.

(** Modelled from the spec: [getBinaryPrecedence] is only declared in
    [AST.h]; the prototype "reports binary precedence 10" when declared
    with precedence 10, that is the precedence it was built with. *)
Definition getBinaryPrecedence (p : PrototypeAST) : N := precedence_ p.

End AST.

(** ** Shapes and measures of the scanning state *)

(** The characters not yet turned into a token: the pending one, unless it
    is [EOF], and the bytes of the input. *)
Definition unread_length (p : Process) : nat :=
  ((if Z.eqb (LastChar p) EOF then 0 else 1) + String.length (stdin p))%nat.

(** The pending character is [EOF] or a byte, the only arguments the
    functions of <cctype> are defined on, and [EOF] is pending only once
    the input is used up. *)
Definition well_formed (p : Process) : Prop :=
  EOF <= LastChar p < 256 /\ (LastChar p = EOF -> stdin p = "").

(** From the pending character [L] and input [s] the scan has moved on to
    [L'] and [s']: either these are a tail of what was there, or the input
    is used up and [EOF] is pending. *)
Definition reads_on (L : Z) (s : string) (L' : Z) (s' : string) : Prop :=
  (exists consumed : list Z, L :: codes s = consumed ++ L' :: codes s')
  \/ (L' = EOF /\ s' = "").

(** [[a-zA-Z][a-zA-Z0-9]*], the comment of the word branch. *)
Definition is_word (s : string) : bool :=
  match s with
  | EmptyString => false
  | String c w => isalpha (code c) && forallb isalnum (codes w)
  end.

(** [[0-9.]+], the comment of the number branch. *)
Definition is_number_text (s : string) : bool :=
  match s with
  | EmptyString => false
  | String c w => numeric (code c) && forallb numeric (codes w)
  end.

(** The characters that reach the last [return ThisChar;] of [gettok]. *)
Definition raw_character (c : Z) : bool :=
  negb (isspace c) && negb (isalpha c) && negb (numeric c)
  && negb (c =? code "#") && negb (c =? EOF).

(** The text [text] stands in what [p] has still to scan, and [p'] is
    where the scan stands right after it: at the character that follows,
    or at [EOF] when the text ends the input. *)
Definition lexeme_at (p : Process) (text : string) (p' : Process) : Prop :=
  exists before : list Z,
    unread p = before ++ codes text ++ unread p'
    \/ (LastChar p' = EOF /\ stdin p' = "" /\ unread p = before ++ codes text).

(** The number of [#] among the characters still to be scanned. *)
Definition comment_starts (p : Process) : nat :=
  count_occ Z.eq_dec (unread p) (code "#").

(** ** Calls in sequence and their payloads *)

Section Payloads.

Context {TK : TokenKinds} {LC : LibC}.

(** One call of [gettok]: the process before it, the kind returned, the
    [Lexer] object and the process after it. *)
Record Call := mkCall {
  call_before : Process;
  call_kind : Z;
  call_lexer : Lexer;
  call_after : Process
}.

(** [n] successive calls of [gettok] on one [Lexer], each one recorded. *)
Fixpoint calls_trace (n : nat) (this : Lexer) (p : Process)
  : option (list Call) :=
  match n with
  | O => Some []
  | S n =>
      match gettok this p with
      | None => None
      | Some (k, this', p') =>
          match calls_trace n this' p' with
          | None => None
          | Some tr => Some (mkCall p k this' p' :: tr)
          end
      end
  end.

(** The [Lexer] object after the calls of a trace that started on [this]. *)
Fixpoint last_lexer (this : Lexer) (tr : list Call) : Lexer :=
  match tr with
  | [] => this
  | c :: tr => last_lexer (call_lexer c) tr
  end.

(** What the accessor [payload] returned right after the most recent call
    of the trace whose kind [produces] it; [before], what it returned
    before the trace, when there is no such call. *)
Fixpoint latest_payload {A : Type} (payload : Lexer -> A)
    (produces : Z -> bool) (tr : list Call) (before : A) : A :=
  match tr with
  | [] => before
  | c :: tr =>
      latest_payload payload produces tr
        (if produces (call_kind c) then payload (call_lexer c) else before)
  end.

Definition is_number_kind (k : Z) : bool := k =? tok_number.
Definition is_word_kind (k : Z) : bool := existsb (Z.eqb k) word_kinds.

(** What the enumeration of [Lexer.h] has to be like for the kind of a
    token to tell its payload: [tok_number] is no keyword or identifier
    kind, [tok_eof] is none of these, and none of them is the value of a
    character, which [gettok] returns as a kind too. *)
Definition kinds_tell_payload : Prop :=
  ~ In tok_number word_kinds
  /\ ~ In tok_eof (tok_number :: word_kinds)
  /\ forall k : Z, In k (tok_number :: word_kinds) -> ~ 0 <= k < 256.

(** The payload a recorded call left: after the number kind, [getNum] is
    [strtod] of a text [[0-9.]+] that stood where the call started
    scanning; after a keyword or identifier kind, [getId] is a word that
    stood there. *)
Definition call_payload (c : Call) : Prop :=
  (call_kind c = tok_number ->
   exists text : string,
     is_number_text text = true
     /\ lexeme_at (call_before c) text (call_after c)
     /\ getNum (call_lexer c) = strtod text)
  /\ (In (call_kind c) word_kinds ->
      is_word (getId (call_lexer c)) = true
      /\ lexeme_at (call_before c) (getId (call_lexer c)) (call_after c)).

(** What one call does to the payloads, by the kind it returns. *)
Definition payload_effect (this : Lexer) (p : Process) (k : Z)
    (this' : Lexer) (p' : Process) : Prop :=
  (k = tok_number ->
   (exists text : string,
       is_number_text text = true
       /\ lexeme_at p text p'
       /\ getNum this' = strtod text)
   /\ getId this' = getId this)
  /\ (In k word_kinds ->
      is_word (getId this') = true
      /\ lexeme_at p (getId this') p'
      /\ (In (getId this', k) keywords
          \/ (k = tok_identifier /\ ~ In (getId this') (map fst keywords)))
      /\ getNum this' = getNum this)
  /\ (k <> tok_number -> ~ In k word_kinds -> this' = this).

End Payloads.

(** ** Characters *)

Lemma code_range (c : ascii) : 0 <= code c < 256.
Proof.
  unfold code. pose proof (N_ascii_bounded c) as H. lia.
Qed.

Lemma char_of_int_code (c : ascii) : char_of_int (code c) = c.
Proof.
  unfold char_of_int. rewrite Z.mod_small by apply code_range.
  unfold code. rewrite N2Z.id. apply ascii_N_embedding.
Qed.

Lemma code_inj (a b : ascii) : code a = code b -> a = b.
Proof.
  intros H. rewrite <- (char_of_int_code a), <- (char_of_int_code b).
  now rewrite H.
Qed.

Lemma code_not_EOF (c : ascii) : (code c =? EOF) = false.
Proof.
  apply Z.eqb_neq. pose proof (code_range c). unfold EOF. lia.
Qed.

Lemma codes_app (a b : string) : codes (a ++ b) = codes a ++ codes b.
Proof.
  induction a as [| c a IH]; simpl; [reflexivity | now rewrite IH].
Qed.

Lemma codes_inj (a b : string) : codes a = codes b -> a = b.
Proof.
  revert b. induction a as [| c a IH]; intros [| d b] H; simpl in H;
    try discriminate; [reflexivity |].
  injection H as Hc Hr. f_equal; [now apply code_inj | now apply IH].
Qed.

Lemma append_empty_r (s : string) : (s ++ "")%string = s.
Proof.
  induction s as [| c s IH]; simpl; [reflexivity | now rewrite IH].
Qed.

Lemma append_snoc (a : string) (c : ascii) (b : string) :
  ((a ++ String c "") ++ b)%string = (a ++ String c b)%string.
Proof.
  induction a as [| d a IH]; simpl; [reflexivity | now rewrite IH].
Qed.

(** ** The four loops are the loops of the source

    Each [Fixpoint] above recurses on the input; these equations read them
    back as the [while] and [do ... while] statements of [gettok], one
    iteration at a time, with [getchar] returning [EOF] on an empty input. *)

Lemma skip_space_eq (LastChar : Z) (stdin : string) :
  skip_space LastChar stdin =
  if isspace LastChar
  then let '(LastChar, stdin) := advance stdin in skip_space LastChar stdin
  else (LastChar, stdin).
Proof.
  destruct stdin as [| c rest]; simpl; reflexivity.
Qed.

Lemma read_identifier_eq (id stdin : string) :
  read_identifier id stdin =
  let '(LastChar, stdin) := getchar stdin in
  if isalnum LastChar
  then read_identifier (id ++ String (char_of_int LastChar) "")%string stdin
  else (id, LastChar, stdin).
Proof.
  destruct stdin as [| c rest]; simpl; reflexivity.
Qed.

Lemma read_number_eq (NumStr : string) (LastChar : Z) (stdin : string) :
  read_number NumStr LastChar stdin =
  let NumStr := (NumStr ++ String (char_of_int LastChar) "")%string in
  let '(LastChar, stdin) := getchar stdin in
  if isdigit LastChar || (LastChar =? code ".")
  then read_number NumStr LastChar stdin
  else (NumStr, LastChar, stdin).
Proof.
  destruct stdin as [| c rest]; simpl; reflexivity.
Qed.

Lemma skip_comment_eq (stdin : string) :
  skip_comment stdin =
  let '(LastChar, stdin) := getchar stdin in
  if negb (LastChar =? EOF) && negb (LastChar =? 10) && negb (LastChar =? 13)
  then skip_comment stdin
  else (LastChar, stdin).
Proof.
  destruct stdin as [| c rest]; simpl; reflexivity.
Qed.

(** ** What each loop computes *)

Lemma skip_space_not_space (LastChar : Z) (stdin : string) :
  isspace LastChar = false -> skip_space LastChar stdin = (LastChar, stdin).
Proof.
  intros H. rewrite skip_space_eq, H. reflexivity.
Qed.

(** Leading white space [ws] is skipped up to the first other character
    [c], whether that is the pending character or still in the input. *)
Lemma skip_space_spec (ws : list Z) :
  forall (LastChar : Z) (stdin : string) (c : Z) (rest : string),
    forallb isspace ws = true ->
    isspace c = false ->
    LastChar :: codes stdin = ws ++ c :: codes rest ->
    skip_space LastChar stdin = (c, rest).
Proof.
  induction ws as [| w ws IH]; intros L s c rest Hws Hc Heq; simpl in *.
  - injection Heq as -> Hs. apply codes_inj in Hs. subst s.
    now apply skip_space_not_space.
  - apply andb_true_iff in Hws as [Hw Hws].
    injection Heq as -> Hs.
    destruct s as [| a s]; simpl in Hs.
    + destruct ws; discriminate.
    + simpl. rewrite Hw. now apply IH.
Qed.

(** The words: alphanumeric characters are appended up to the first
    character that is not one, or up to the end of the input. *)
Lemma read_identifier_spec (w : string) :
  forall (id rest : string),
    forallb isalnum (codes w) = true ->
    isalnum (fst (getchar rest)) = false ->
    read_identifier id (w ++ rest) =
    ((id ++ w)%string, fst (getchar rest), snd (getchar rest)).
Proof.
  induction w as [| a w IH]; intros id rest Hw Hend; simpl in *.
  - rewrite append_empty_r, read_identifier_eq.
    destruct (getchar rest) as [L s]. simpl in *. now rewrite Hend.
  - apply andb_true_iff in Hw as [Ha Hw].
    rewrite Ha, char_of_int_code, IH by assumption.
    now rewrite append_snoc.
Qed.

(** The numbers: digits and points are appended likewise. *)
Lemma read_number_spec (w : string) :
  forall (NumStr : string) (c : ascii) (rest : string),
    forallb numeric (codes w) = true ->
    numeric (fst (getchar rest)) = false ->
    read_number NumStr (code c) (w ++ rest) =
    ((NumStr ++ String c w)%string, fst (getchar rest), snd (getchar rest)).
Proof.
  induction w as [| a w IH]; intros acc c rest Hw Hend; simpl in *.
  - rewrite read_number_eq, char_of_int_code.
    destruct (getchar rest) as [L s]. simpl in *.
    unfold numeric in Hend. now rewrite Hend.
  - apply andb_true_iff in Hw as [Ha Hw].
    rewrite char_of_int_code. unfold numeric in Ha. rewrite Ha.
    rewrite IH by assumption. now rewrite append_snoc.
Qed.

(** A comment that runs into the end of the input leaves [EOF] pending. *)
Lemma skip_comment_to_EOF (body : string) :
  forallb in_comment (codes body) = true ->
  skip_comment body = (EOF, "").
Proof.
  induction body as [| a body IH]; intros H; simpl in *; [reflexivity |].
  apply andb_true_iff in H as [Ha H]. unfold in_comment in Ha.
  rewrite code_not_EOF. simpl. rewrite Ha. now apply IH.
Qed.

(** The input never grows, and a comment that ends in a line break has
    consumed at least that line break. *)
Lemma skip_space_length (stdin : string) :
  forall LastChar : Z,
    (String.length (snd (skip_space LastChar stdin)) <= String.length stdin)%nat.
Proof.
  induction stdin as [| a s IH]; intros L; simpl;
    destruct (isspace L); simpl; try lia.
  specialize (IH (code a)). lia.
Qed.

Lemma skip_comment_length (stdin : string) :
  fst (skip_comment stdin) <> EOF ->
  (String.length (snd (skip_comment stdin)) < String.length stdin)%nat.
Proof.
  induction stdin as [| a s IH]; simpl; intros H; [congruence |].
  destruct (negb (code a =? EOF) && negb (code a =? 10) && negb (code a =? 13));
    simpl in *; [specialize (IH H) |]; lia.
Qed.

(** The classes of characters that start a token exclude one another. *)
Lemma numeric_not_alpha (c : Z) : numeric c = true -> isalpha c = false.
Proof.
  unfold numeric, isalpha, isupper, islower, isdigit, code. simpl. lia.
Qed.

Lemma numeric_not_space (c : Z) : numeric c = true -> isspace c = false.
Proof.
  unfold numeric, isspace, isdigit, code. simpl. lia.
Qed.

Lemma isalpha_not_space (c : Z) : isalpha c = true -> isspace c = false.
Proof.
  unfold isalpha, isupper, islower, isspace. lia.
Qed.

(** ** Words, numbers and single characters *)

Section Tokens.

Context {TK : TokenKinds} {LC : LibC}.

(** After any white space, a word [c w] that stops at [rest] is read whole
    and looked up; no nested call is made. *)
Lemma gettok_rec_word (n : nat) (this : Lexer) (p : Process)
    (ws : list Z) (c : ascii) (w rest : string) :
  forallb isspace ws = true ->
  isalpha (code c) = true ->
  forallb isalnum (codes w) = true ->
  isalnum (fst (getchar rest)) = false ->
  unread p = ws ++ codes (String c w ++ rest) ->
  gettok_rec (S n) this p =
  Some (keyword_or_identifier (String c w),
        {| identifierStr_ := String c w; numVal_ := numVal_ this |},
        {| LastChar := fst (getchar rest); stdin := snd (getchar rest) |}).
Proof.
  intros Hws Hc Hw Hend Hp. unfold unread in Hp. simpl codes in Hp.
  cbn [gettok_rec].
  rewrite (skip_space_spec ws _ _ (code c) (w ++ rest) Hws
             (isalpha_not_space _ Hc) Hp).
  rewrite Hc, char_of_int_code, read_identifier_spec by assumption.
  reflexivity.
Qed.

Lemma gettok_rec_number (n : nat) (this : Lexer) (p : Process)
    (ws : list Z) (c : ascii) (w rest : string) :
  forallb isspace ws = true ->
  numeric (code c) = true ->
  forallb numeric (codes w) = true ->
  numeric (fst (getchar rest)) = false ->
  unread p = ws ++ codes (String c w ++ rest) ->
  gettok_rec (S n) this p =
  Some (tok_number,
        {| identifierStr_ := identifierStr_ this; numVal_ := strtod (String c w) |},
        {| LastChar := fst (getchar rest); stdin := snd (getchar rest) |}).
Proof.
  intros Hws Hc Hw Hend Hp. unfold unread in Hp. simpl codes in Hp.
  cbn [gettok_rec].
  rewrite (skip_space_spec ws _ _ (code c) (w ++ rest) Hws
             (numeric_not_space _ Hc) Hp).
  rewrite (numeric_not_alpha _ Hc).
  unfold numeric in Hc. rewrite Hc.
  rewrite read_number_spec by assumption.
  reflexivity.
Qed.

(** The keyword chain answers [tok_identifier] for any other word. *)
Lemma keyword_or_identifier_other (id : string) :
  ~ In id (map fst keywords) -> keyword_or_identifier id = tok_identifier.
Proof.
  intros H. unfold keyword_or_identifier.
  repeat match goal with
         | |- context [String.eqb id ?k] =>
             destruct (String.eqb_spec id k) as [-> | _];
             [exfalso; apply H; simpl; tauto |]
         end.
  reflexivity.
Qed.

(** C1. A keyword of the set {def, extern, if, then, else, for, in, unary,
    binary, var}, after any white space and followed by a character that
    is not alphanumeric or by the end of the input, makes [gettok] return
    the kind of that keyword, with the keyword as [getId]; that kind is
    not [tok_identifier] as soon as [tok_identifier] is none of the
    keyword kinds of [Lexer.h]. *)
Theorem gettok_keyword (this : Lexer) (p : Process)
    (ws : list Z) (kw : string) (k : Z) (rest : string) :
  ~ In tok_identifier (map snd keywords) ->
  In (kw, k) keywords ->
  forallb isspace ws = true ->
  isalnum (fst (getchar rest)) = false ->
  unread p = ws ++ codes (kw ++ rest) ->
  (exists this',
      gettok this p =
      Some (k, this',
            {| LastChar := fst (getchar rest); stdin := snd (getchar rest) |})
      /\ getId this' = kw /\ getNum this' = getNum this)
  /\ k <> tok_identifier.
Proof.
  intros Hdistinct Hin Hws Hend Hp. split.
  - exists {| identifierStr_ := kw; numVal_ := numVal_ this |}.
    split; [| split; reflexivity].
    unfold gettok. simpl in Hin.
    repeat destruct Hin as [Hin | Hin]; try contradiction;
      injection Hin as <- <-;
      match type of Hp with
      | _ = _ ++ codes (String ?c ?w ++ _) =>
          exact (gettok_rec_word _ this p ws c w rest Hws eq_refl eq_refl Hend Hp)
      end.
  - intros ->. apply Hdistinct.
    change tok_identifier with (snd (kw, tok_identifier)).
    now apply in_map.
Qed.

(** C3. A word that starts with a letter, goes on with letters and digits
    up to a character that is neither (or to the end of the input) and is
    not a keyword makes [gettok] return [tok_identifier], and [getId]
    then returns exactly that word. *)
Theorem gettok_identifier (this : Lexer) (p : Process)
    (ws : list Z) (c : ascii) (w rest : string) :
  forallb isspace ws = true ->
  isalpha (code c) = true ->
  forallb isalnum (codes w) = true ->
  isalnum (fst (getchar rest)) = false ->
  ~ In (String c w) (map fst keywords) ->
  unread p = ws ++ codes (String c w ++ rest) ->
  exists this',
    gettok this p =
    Some (tok_identifier, this',
          {| LastChar := fst (getchar rest); stdin := snd (getchar rest) |})
    /\ getId this' = String c w /\ getNum this' = getNum this.
Proof.
  intros Hws Hc Hw Hend Hkw Hp.
  exists {| identifierStr_ := String c w; numVal_ := numVal_ this |}.
  split; [| split; reflexivity].
  unfold gettok.
  rewrite (gettok_rec_word _ this p ws c w rest Hws Hc Hw Hend Hp).
  now rewrite keyword_or_identifier_other.
Qed.

(** C2. A text of digits and decimal points, taken as far as it goes,
    makes [gettok] return [tok_number], and [getNum] then returns what
    [strtod] makes of exactly that text, however many points it has: no
    text is refused. *)
Theorem gettok_number (this : Lexer) (p : Process)
    (ws : list Z) (c : ascii) (w rest : string) :
  forallb isspace ws = true ->
  numeric (code c) = true ->
  forallb numeric (codes w) = true ->
  numeric (fst (getchar rest)) = false ->
  unread p = ws ++ codes (String c w ++ rest) ->
  exists this',
    gettok this p =
    Some (tok_number, this',
          {| LastChar := fst (getchar rest); stdin := snd (getchar rest) |})
    /\ getNum this' = strtod (String c w) /\ getId this' = getId this.
Proof.
  intros Hws Hc Hw Hend Hp.
  exists {| identifierStr_ := identifierStr_ this; numVal_ := strtod (String c w) |}.
  split; [| split; reflexivity].
  unfold gettok.
  exact (gettok_rec_number _ this p ws c w rest Hws Hc Hw Hend Hp).
Qed.

End Tokens.

(** ** Termination and totality *)

Section Termination.

Context {TK : TokenKinds} {LC : LibC}.

(** A nesting bound above the number of bytes left is never exceeded: the
    nested call after a comment sees a strictly shorter input. *)
Lemma gettok_rec_total (n : nat) :
  forall (this : Lexer) (p : Process),
    (String.length (stdin p) < n)%nat ->
    exists r, gettok_rec n this p = Some r.
Proof.
  induction n as [| n IH]; intros this p Hn; [lia |].
  cbn [gettok_rec].
  pose proof (skip_space_length (stdin p) (LastChar p)) as Hs.
  destruct (skip_space (LastChar p) (stdin p)) as [L s]. simpl in Hs.
  destruct (isalpha L).
  { destruct (read_identifier _ s) as [[id L'] s']. eexists. reflexivity. }
  destruct (isdigit L || (L =? code ".")).
  { destruct (read_number _ L s) as [[NumStr L'] s']. eexists. reflexivity. }
  destruct (L =? code "#"); [| eexists; reflexivity].
  pose proof (skip_comment_length s) as Hc.
  destruct (skip_comment s) as [L' s']. simpl in Hc.
  destruct (Z.eqb_spec L' EOF) as [-> | Hne]; simpl.
  - eexists. reflexivity.
  - apply IH. simpl. specialize (Hc Hne). lia.
Qed.

(** A larger bound changes nothing. *)
Lemma gettok_rec_mono (n : nat) :
  forall (this : Lexer) (p : Process) r (m : nat),
    gettok_rec n this p = Some r -> (n <= m)%nat -> gettok_rec m this p = Some r.
Proof.
  induction n as [| n IH]; intros this p r m H Hm; [discriminate |].
  destruct m as [| m]; [lia |].
  cbn [gettok_rec] in *.
  destruct (skip_space (LastChar p) (stdin p)) as [L s].
  destruct (isalpha L); [exact H |].
  destruct (isdigit L || (L =? code ".")); [exact H |].
  destruct (L =? code "#"); [| exact H].
  destruct (skip_comment s) as [L' s'].
  destruct (negb (L' =? EOF)); [| exact H].
  apply IH; [exact H | lia].
Qed.

Lemma gettok_rec_enough (n : nat) (this : Lexer) (p : Process) :
  (String.length (stdin p) < n)%nat -> gettok_rec n this p = gettok this p.
Proof.
  intros Hn.
  destruct (gettok_rec_total (S (String.length (stdin p))) this p) as [r Hr];
    [lia |].
  unfold gettok. rewrite Hr. apply (gettok_rec_mono _ _ _ _ _ Hr). lia.
Qed.

(** C7. [gettok] terminates on every finite input: discarding a comment
    up to a line break leaves strictly less input than there was, so the
    nested calls after comments are fewer than the bytes left plus one;
    with that nesting allowed, and with any deeper one, the call returns,
    and returns the same result. *)
Theorem gettok_terminates (this : Lexer) (p : Process) :
  (forall stdin : string,
      fst (skip_comment stdin) <> EOF ->
      (String.length (snd (skip_comment stdin)) < String.length stdin)%nat)
  /\ (exists r, gettok this p = Some r
        /\ forall n : nat,
             (String.length (stdin p) < n)%nat -> gettok_rec n this p = Some r).
Proof.
  split; [exact skip_comment_length |].
  destruct (gettok_rec_total (S (String.length (stdin p))) this p) as [r Hr];
    [lia |].
  exists r. split; [exact Hr |].
  intros n Hn. rewrite gettok_rec_enough by exact Hn. exact Hr.
Qed.

(** After white space, a character that starts neither a word, a number
    nor a comment and is not [EOF] is the token. *)
Lemma gettok_rec_char (n : nat) (this : Lexer) (p : Process)
    (ws : list Z) (c : Z) (rest : string) :
  forallb isspace ws = true ->
  isspace c = false ->
  isalpha c = false ->
  numeric c = false ->
  c <> code "#" ->
  c <> EOF ->
  unread p = ws ++ c :: codes rest ->
  gettok_rec (S n) this p =
  Some (c, this,
        {| LastChar := fst (advance rest); stdin := snd (advance rest) |}).
Proof.
  intros Hws Hsp Hal Hnum Hhash Heof Hp. unfold unread in Hp.
  cbn [gettok_rec].
  rewrite (skip_space_spec ws _ _ c rest Hws Hsp Hp), Hal.
  unfold numeric in Hnum. rewrite Hnum.
  apply Z.eqb_neq in Hhash, Heof. rewrite Hhash.
  unfold eof_or_char. rewrite Heof.
  destruct (advance rest) as [L s]. reflexivity.
Qed.

(** C5. [gettok] never fails: every call returns a token; and after any
    white space, a character that is neither white space, a letter, a
    digit, a point, [#] nor [EOF] is returned as the kind, its own value,
    while the lexer moves to the character after it. *)
Theorem gettok_never_fails (this : Lexer) (p : Process) :
  (exists k this' p', gettok this p = Some (k, this', p'))
  /\ forall (ws : list Z) (c : Z) (rest : string),
       forallb isspace ws = true ->
       isspace c = false ->
       isalpha c = false ->
       numeric c = false ->
       c <> code "#" ->
       c <> EOF ->
       unread p = ws ++ c :: codes rest ->
       gettok this p =
       Some (c, this,
             {| LastChar := fst (advance rest); stdin := snd (advance rest) |}).
Proof.
  split.
  - destruct (gettok_rec_total (S (String.length (stdin p))) this p)
      as [[[k this'] p'] Hr]; [lia |].
    now exists k, this', p'.
  - intros ws c rest Hws Hsp Hal Hnum Hhash Heof Hp.
    exact (gettok_rec_char _ this p ws c rest Hws Hsp Hal Hnum Hhash Heof Hp).
Qed.

(** With [EOF] pending a call returns [tok_eof] and changes nothing. *)
Lemma gettok_at_EOF (this : Lexer) (p : Process) :
  LastChar p = EOF -> gettok this p = Some (tok_eof, this, p).
Proof.
  destruct p as [L s]. simpl. intros ->.
  unfold gettok. cbn [gettok_rec LastChar stdin].
  rewrite skip_space_not_space by reflexivity. reflexivity.
Qed.

(** C6. Once the end of the input is the pending character, [gettok]
    returns [tok_eof], reads nothing and leaves the lexer and the process
    as they were; so does every call after it. *)
Theorem gettok_eof_forever (this : Lexer) (p : Process) :
  LastChar p = EOF ->
  gettok this p = Some (tok_eof, this, p)
  /\ forall n : nat, calls n this p = Some (repeat tok_eof n, this, p).
Proof.
  intros H. split; [now apply gettok_at_EOF |].
  induction n as [| n IH]; [reflexivity |].
  cbn [calls repeat]. rewrite (gettok_at_EOF this p H), IH. reflexivity.
Qed.

End Termination.

(** ** Comments, payloads and the shared pending character *)

Section Effects.

Context {TK : TokenKinds} {LC : LibC}.

Lemma codes_length (s : string) : List.length (codes s) = String.length s.
Proof.
  induction s as [| c s IH]; simpl; [reflexivity | now rewrite IH].
Qed.

(** A comment that ends in a line break [eol] is discarded up to it, and
    the line break is left pending. *)
Lemma skip_comment_line (body : string) (eol : ascii) (rest : string) :
  forallb in_comment (codes body) = true ->
  in_comment (code eol) = false ->
  skip_comment (body ++ String eol rest) = (code eol, rest).
Proof.
  intros Hbody Heol. unfold in_comment in Heol.
  induction body as [| a body IH]; simpl in *.
  - rewrite code_not_EOF. simpl. now rewrite Heol.
  - apply andb_true_iff in Hbody as [Ha Hbody]. unfold in_comment in Ha.
    rewrite code_not_EOF. simpl. rewrite Ha. now apply IH.
Qed.

(** The call then goes on as a call made with the line break pending. *)
Lemma gettok_comment_line (this : Lexer) (p : Process)
    (ws : list Z) (body : string) (eol : ascii) (rest : string) :
  forallb isspace ws = true ->
  forallb in_comment (codes body) = true ->
  in_comment (code eol) = false ->
  unread p = ws ++ code "#" :: codes (body ++ String eol rest) ->
  gettok this p = gettok this {| LastChar := code eol; stdin := rest |}.
Proof.
  intros Hws Hbody Heol Hp. unfold unread in Hp.
  assert (Hlen : (String.length rest < String.length (stdin p))%nat).
  { apply (f_equal (@List.length Z)) in Hp.
    rewrite codes_app in Hp. simpl in Hp.
    rewrite List.length_app in Hp. simpl in Hp.
    rewrite List.length_app in Hp. simpl in Hp.
    rewrite !codes_length in Hp. lia. }
  unfold gettok at 1. cbn [gettok_rec].
  rewrite (skip_space_spec ws _ _ (code "#") _ Hws eq_refl Hp).
  change (isalpha (code "#")) with false.
  change (isdigit (code "#") || (code "#" =? code ".")) with false.
  change (code "#" =? code "#") with true. cbv iota.
  rewrite (skip_comment_line body eol rest Hbody Heol), code_not_EOF.
  cbn [negb]. now apply gettok_rec_enough.
Qed.

Lemma gettok_rec_comment_to_EOF (n : nat) (this : Lexer) (p : Process)
    (ws : list Z) (body : string) :
  forallb isspace ws = true ->
  forallb in_comment (codes body) = true ->
  unread p = ws ++ code "#" :: codes body ->
  gettok_rec (S n) this p =
  Some (tok_eof, this, {| LastChar := EOF; stdin := "" |}).
Proof.
  intros Hws Hbody Hp. unfold unread in Hp.
  cbn [gettok_rec].
  rewrite (skip_space_spec ws _ _ (code "#") body Hws eq_refl Hp).
  change (isalpha (code "#")) with false.
  change (isdigit (code "#") || (code "#" =? code ".")) with false.
  change (code "#" =? code "#") with true. cbv iota.
  rewrite (skip_comment_to_EOF body Hbody). reflexivity.
Qed.

(** C4. A comment yields no token.  On [1 # c\n2] the first call returns
    [tok_number] with payload [strtod "1"], and three calls return
    [tok_number; tok_number; tok_eof], the last payload being
    [strtod "2"].  In general a call that meets a comment ending in a line
    feed or carriage return returns what a call returns with that line
    break pending and the input after it; and a comment that is cut by the
    end of the input makes [gettok] return [tok_eof], with [EOF] left
    pending. *)
Theorem comment_yields_no_token (this : Lexer) :
  (exists this1 p1,
      gettok this (start one_comment_two) = Some (tok_number, this1, p1)
      /\ getNum this1 = strtod "1")
  /\ calls 3 this (start one_comment_two) =
     Some ([tok_number; tok_number; tok_eof],
           {| identifierStr_ := identifierStr_ this; numVal_ := strtod "2" |},
           {| LastChar := EOF; stdin := "" |})
  /\ (forall (p : Process) (ws : list Z) (body : string) (eol : ascii)
             (rest : string),
        forallb isspace ws = true ->
        forallb in_comment (codes body) = true ->
        in_comment (code eol) = false ->
        unread p = ws ++ code "#" :: codes (body ++ String eol rest) ->
        gettok this p = gettok this {| LastChar := code eol; stdin := rest |})
  /\ forall (p : Process) (ws : list Z) (body : string),
       forallb isspace ws = true ->
       forallb in_comment (codes body) = true ->
       unread p = ws ++ code "#" :: codes body ->
       gettok this p = Some (tok_eof, this, {| LastChar := EOF; stdin := "" |}).
Proof.
  split; [| split; [| split]].
  - eexists. eexists. split; reflexivity.
  - reflexivity.
  - intros p ws body eol rest. apply gettok_comment_line.
  - intros p ws body Hws Hbody Hp.
    exact (gettok_rec_comment_to_EOF _ this p ws body Hws Hbody Hp).
Qed.

Lemma keyword_or_identifier_kind (id : string) :
  In (keyword_or_identifier id) word_kinds.
Proof.
  unfold keyword_or_identifier.
  repeat match goal with
         | |- context [String.eqb id ?k] => destruct (String.eqb id k)
         end; simpl; tauto.
Qed.

(** The token returned and the state of the process after a call do not
    depend on the [Lexer] object the call is made on. *)
Lemma gettok_rec_observable (n : nat) :
  forall (a b : Lexer) (p : Process),
    observable (gettok_rec n a p) = observable (gettok_rec n b p).
Proof.
  induction n as [| n IH]; intros a b p; [reflexivity |].
  cbn [gettok_rec].
  destruct (skip_space (LastChar p) (stdin p)) as [L s].
  destruct (isalpha L).
  { destruct (read_identifier _ s) as [[id L'] s']. reflexivity. }
  destruct (isdigit L || (L =? code ".")).
  { destruct (read_number _ L s) as [[NumStr L'] s']. reflexivity. }
  assert (Hlast : forall L s, observable (Some (eof_or_char a L s)) =
                              observable (Some (eof_or_char b L s))).
  { intros L0 s0. unfold eof_or_char. destruct (L0 =? EOF); [reflexivity |].
    destruct (advance s0). reflexivity. }
  destruct (L =? code "#"); [| apply Hlast].
  destruct (skip_comment s) as [L' s'].
  destruct (negb (L' =? EOF)); [apply IH | apply Hlast].
Qed.

Lemma gettok_observable (a b : Lexer) (p : Process) :
  observable (gettok a p) = observable (gettok b p).
Proof.
  apply gettok_rec_observable.
Qed.

(** C10. The pending character belongs to the process, not to a [Lexer]:
    constructing a [Lexer] leaves it, and the input, as they are; a call
    of [gettok] returns the same token and leaves the same pending
    character and input whichever object it is made on; hence calls
    interleaved on two objects return the tokens, and leave the process
    in the state, of as many calls on a single object. *)
Theorem pending_character_is_shared :
  (forall (indeterminate : double) (p : Process),
      snd (Lexer_ctor indeterminate p) = p)
  /\ (forall (a b : Lexer) (p : Process),
        observable (gettok a p) = observable (gettok b p))
  /\ (forall (schedule : list bool) (a b c : Lexer) (p : Process),
        option_map (fun '(ks, _, _, p') => (ks, p')) (calls_on schedule a b p) =
        option_map (fun '(ks, _, p') => (ks, p'))
                   (calls (List.length schedule) c p)).
Proof.
  split; [reflexivity | split; [exact gettok_observable |]].
  induction schedule as [| [|] schedule IH]; intros a b c p; [reflexivity | |];
    cbn [calls_on calls List.length].
  - pose proof (gettok_observable a c p) as Ho.
    destruct (gettok a p) as [[[k a'] p1] |], (gettok c p) as [[[k' c'] p1'] |];
      simpl in Ho; try discriminate; [| reflexivity].
    injection Ho as <- <-.
    specialize (IH a' b c' p1).
    destruct (calls_on schedule a' b p1) as [[[[ks a2] b2] p2] |];
      destruct (calls (List.length schedule) c' p1) as [[[ks' c2] p2'] |];
      simpl in *; try discriminate; [| reflexivity].
    injection IH as <- <-. reflexivity.
  - pose proof (gettok_observable b c p) as Ho.
    destruct (gettok b p) as [[[k b'] p1] |], (gettok c p) as [[[k' c'] p1'] |];
      simpl in Ho; try discriminate; [| reflexivity].
    injection Ho as <- <-.
    specialize (IH a b' c' p1).
    destruct (calls_on schedule a b' p1) as [[[[ks a2] b2] p2] |];
      destruct (calls (List.length schedule) c' p1) as [[[ks' c2] p2'] |];
      simpl in *; try discriminate; [| reflexivity].
    injection IH as <- <-. reflexivity.
Qed.

End Effects.

(** ** The prototype node *)

(** C9. A prototype is unary exactly when its operator flag is set and it
    has one parameter, binary exactly when the flag is set and it has two;
    one built as a binary operator reports the precedence it was given,
    10 for [binary^ 10 (a b)]. *)
Theorem prototype_operator_arity :
  (forall p : AST.PrototypeAST,
      (AST.isUnary p = true <->
       AST.is_operator_ p = true /\ List.length (AST.args_ p) = 1%nat)
      /\ (AST.isBinary p = true <->
          AST.is_operator_ p = true /\ List.length (AST.args_ p) = 2%nat))
  /\ (forall (name a b : string) (precedence : N),
        AST.isBinary (AST.PrototypeAST_ctor name [a; b] true precedence) = true
        /\ AST.getBinaryPrecedence
             (AST.PrototypeAST_ctor name [a; b] true precedence) = precedence)
  /\ AST.getBinaryPrecedence
       (AST.PrototypeAST_ctor "binary^" ["a"; "b"] true 10) = 10%N.
Proof.
  split; [| split; [intros; split; reflexivity | reflexivity]].
  intros p. unfold AST.isUnary, AST.isBinary.
  split; rewrite andb_true_iff, Nat.eqb_eq; reflexivity.
Qed.

Lemma prototype_operator_arity_witness :
  AST.isUnary (AST.PrototypeAST_ctor "unary!" ["v"] true 0) = true
  /\ AST.isBinary (AST.PrototypeAST_ctor_default "foo" ["a"; "b"]) <> true.
Proof.
  destruct prototype_operator_arity as [H _]. split.
  - apply (proj2 (proj1 (H _))). split; reflexivity.
  - intros E. apply (proj1 (proj2 (H _))) in E. destruct E as [E _].
    discriminate E.
Defined.

(** ** Runs on concrete inputs *)

Section Runs.

#[local] Existing Instance sample_kinds.
#[local] Existing Instance decimal_libc.

(** The keyword kinds of the sample numbering are not [tok_identifier]. *)
Lemma sample_kinds_distinct : ~ In tok_identifier (map snd keywords).
Proof.
  simpl. intros H. repeat destruct H as [H | H]; try discriminate H. exact H.
Defined.

Lemma gettok_keyword_witness :
  (exists this',
      gettok sample_lexer (start "def foo") =
      Some (tok_def, this', {| LastChar := code " "; stdin := "foo" |})
      /\ getId this' = "def" /\ getNum this' = getNum sample_lexer)
  /\ tok_def <> tok_identifier.
Proof.
  apply (gettok_keyword sample_lexer (start "def foo") [code " "] "def"
           tok_def " foo").
  - exact sample_kinds_distinct.
  - simpl. left. reflexivity.
  - reflexivity.
  - reflexivity.
  - reflexivity.
Defined.

Lemma gettok_number_witness :
  exists this',
    gettok sample_lexer (start "1.2.3+x") =
    Some (tok_number, this', {| LastChar := code "+"; stdin := "x" |})
    /\ getNum this' = (12 # 10)%Q /\ getId this' = "".
Proof.
  apply (gettok_number sample_lexer (start "1.2.3+x") [code " "] "1" ".2.3" "+x");
    reflexivity.
Defined.

Lemma gettok_identifier_witness :
  exists this',
    gettok sample_lexer {| LastChar := code "d"; stdin := "efine(" |} =
    Some (tok_identifier, this', {| LastChar := code "("; stdin := "" |})
    /\ getId this' = "define" /\ getNum this' = getNum sample_lexer.
Proof.
  apply (gettok_identifier sample_lexer
           {| LastChar := code "d"; stdin := "efine(" |} [] "d" "efine" "(");
    try reflexivity.
  simpl. intros H. repeat destruct H as [H | H]; try discriminate H. exact H.
Defined.

Lemma comment_yields_no_token_witness :
  gettok sample_lexer (start "  # no line break") =
  Some (tok_eof, sample_lexer, {| LastChar := EOF; stdin := "" |})
  /\ gettok sample_lexer (start ("# c" ++ String "010" "2")) =
     gettok sample_lexer {| LastChar := 10; stdin := "2" |}.
Proof.
  destruct (comment_yields_no_token sample_lexer) as [_ [_ [Hline Hcut]]].
  split.
  - apply (Hcut (start "  # no line break") [code " "; code " "; code " "]
             " no line break");
      reflexivity.
  - apply (Hline (start ("# c" ++ String "010" "2")) [code " "] " c"
             "010"%char "2");
      reflexivity.
Defined.

Lemma gettok_never_fails_witness :
  gettok sample_lexer (start "+1") =
  Some (code "+", sample_lexer, {| LastChar := code "1"; stdin := "" |}).
Proof.
  apply (proj2 (gettok_never_fails sample_lexer (start "+1"))
           [code " "] (code "+") "1");
    try reflexivity; discriminate.
Defined.

Lemma gettok_eof_forever_witness :
  gettok sample_lexer {| LastChar := EOF; stdin := "" |} =
  Some (tok_eof, sample_lexer, {| LastChar := EOF; stdin := "" |})
  /\ forall n : nat,
       calls n sample_lexer {| LastChar := EOF; stdin := "" |} =
       Some (repeat tok_eof n, sample_lexer, {| LastChar := EOF; stdin := "" |}).
Proof.
  apply (gettok_eof_forever sample_lexer {| LastChar := EOF; stdin := "" |}).
  reflexivity.
Defined.

Lemma gettok_terminates_witness :
  exists r,
    gettok sample_lexer (start one_comment_two) = Some r
    /\ gettok_rec 8 sample_lexer (start one_comment_two) = Some r.
Proof.
  destruct (gettok_terminates sample_lexer (start one_comment_two))
    as [_ [r [Hr Hn]]].
  exists r. split; [exact Hr |].
  apply Hn. simpl. repeat constructor.
Defined.

(** C8, counterexample.  On [x 7 +] the call that returns the number
    leaves [getId] at ["x"], and the call that returns [+] leaves the
    whole [Lexer] object as it was: [getNum] still returns the 7 and
    [getId] the ["x"] of earlier tokens; neither was overwritten by the
    next call. *)
Lemma payload_survives_next_call :
  let this1 := {| identifierStr_ := "x"; numVal_ := 0%Q |} in
  let this2 := {| identifierStr_ := "x"; numVal_ := (7 # 1)%Q |} in
  gettok sample_lexer (start "x 7 +") =
  Some (tok_identifier, this1, {| LastChar := code " "; stdin := "7 +" |})
  /\ gettok this1 {| LastChar := code " "; stdin := "7 +" |} =
     Some (tok_number, this2, {| LastChar := code " "; stdin := "+" |})
  /\ gettok this2 {| LastChar := code " "; stdin := "+" |} =
     Some (code "+", this2, {| LastChar := EOF; stdin := "" |})
  /\ getId this2 = "x" /\ getNum this2 = (7 # 1)%Q.
Proof.
  repeat split.
Qed.

(** [1 # c\n2] with the decimal conversion: the payloads are 1 and 2. *)
Example one_comment_two_run :
  exists this1 p1 this2 p2,
    gettok sample_lexer (start one_comment_two) = Some (tok_number, this1, p1)
    /\ getNum this1 = (1 # 1)%Q
    /\ gettok this1 p1 = Some (tok_number, this2, p2)
    /\ getNum this2 = (2 # 1)%Q
    /\ gettok this2 p2 = Some (tok_eof, this2, p2).
Proof.
  do 4 eexists. repeat split.
Qed.

(** Two lexers on [ab+cd]: the second one starts at the [+] the first one
    left pending, where a pending character of its own, a blank, would
    have made it return the word [cd]. *)
Example two_lexers_one_pending_character :
  option_map (fun '(ks, _, b, _) => (ks, getId b))
             (calls_on [true; false; false] sample_lexer sample_lexer
                       (start "ab+cd")) =
  Some ([tok_identifier; code "+"; tok_identifier], "cd").
Proof.
  reflexivity.
Qed.

End Runs.

(** ** How the loops move through the input *)

Lemma code_char_of_int (z : Z) : 0 <= z < 256 -> code (char_of_int z) = z.
Proof.
  intros H. unfold code, char_of_int. rewrite Z.mod_small by exact H.
  rewrite N_ascii_embedding by lia. lia.
Qed.

Lemma reads_on_refl (L : Z) (s : string) : reads_on L s L s.
Proof.
  left. now exists [].
Qed.

Lemma reads_on_trans (L0 : Z) (s0 : string) (L1 : Z) (s1 : string)
    (L2 : Z) (s2 : string) :
  reads_on L0 s0 L1 s1 -> reads_on L1 s1 L2 s2 -> reads_on L0 s0 L2 s2.
Proof.
  intros [[c1 H1] | [-> ->]] [[c2 H2] | [-> ->]]; try (right; now split).
  - left. exists (c1 ++ c2). rewrite H1, H2. now rewrite <- app_assoc.
  - destruct c2 as [| x c2]; simpl in H2.
    + injection H2 as <- Hs. destruct s2; [| discriminate]. right. now split.
    + injection H2 as _ H2. destruct c2; discriminate.
Qed.

(** A step from the input alone, as the loops that start with [getchar]
    make it. *)
Lemma reads_on_input (L : Z) (s : string) (L' : Z) (s' : string) :
  (exists consumed : list Z, codes s = consumed ++ L' :: codes s')
  \/ (L' = EOF /\ s' = "") ->
  reads_on L s L' s'.
Proof.
  intros [[c H] | H]; [left | right; exact H].
  exists (L :: c). simpl. now rewrite H.
Qed.

Lemma skip_space_result (s : string) :
  forall L : Z,
    isspace (fst (skip_space L s)) = false
    /\ reads_on L s (fst (skip_space L s)) (snd (skip_space L s)).
Proof.
  induction s as [| a s IH]; intros L; simpl.
  - destruct (isspace L) eqn:E; simpl.
    + split; [reflexivity | right; now split].
    + split; [exact E | apply reads_on_refl].
  - destruct (isspace L) eqn:E; simpl.
    + destruct (IH (code a)) as [Hs Hr]. split; [exact Hs |].
      eapply reads_on_trans; [| exact Hr]. left. now exists [L].
    + split; [exact E | apply reads_on_refl].
Qed.

Lemma read_identifier_result (s : string) :
  forall (id id' : string) (L' : Z) (s' : string),
    read_identifier id s = (id', L', s') ->
    (exists w : string,
        id' = (id ++ w)%string /\ forallb isalnum (codes w) = true)
    /\ isalnum L' = false
    /\ ((exists consumed : list Z, codes s = consumed ++ L' :: codes s')
        \/ (L' = EOF /\ s' = "")).
Proof.
  induction s as [| a s IH]; intros id id' L' s' H; simpl in H.
  - injection H as <- <- <-. split; [| split].
    + exists "". now rewrite append_empty_r.
    + reflexivity.
    + right. now split.
  - destruct (isalnum (code a)) eqn:E.
    + rewrite char_of_int_code in H.
      destruct (IH _ _ _ _ H) as [[w [-> Hw]] [HL Hr]]. split; [| split].
      * exists (String a w). rewrite append_snoc. split; [reflexivity |].
        simpl. now rewrite E.
      * exact HL.
      * destruct Hr as [[c Hc] | Hr]; [left | right; exact Hr].
        exists (code a :: c). simpl. now rewrite Hc.
    + injection H as <- <- <-. split; [| split].
      * exists "". now rewrite append_empty_r.
      * exact E.
      * left. now exists [].
Qed.

Lemma read_number_result (s : string) :
  forall (NumStr : string) (L : Z) (NumStr' : string) (L' : Z) (s' : string),
    read_number NumStr L s = (NumStr', L', s') ->
    (exists w : string,
        NumStr' = (NumStr ++ String (char_of_int L) w)%string
        /\ forallb numeric (codes w) = true)
    /\ numeric L' = false
    /\ ((exists consumed : list Z, codes s = consumed ++ L' :: codes s')
        \/ (L' = EOF /\ s' = "")).
Proof.
  induction s as [| a s IH]; intros acc L acc' L' s' H; simpl in H.
  - injection H as <- <- <-. split; [| split].
    + now exists "".
    + reflexivity.
    + right. now split.
  - destruct (isdigit (code a) || (code a =? code ".")) eqn:E.
    + destruct (IH _ _ _ _ _ H) as [[w [-> Hw]] [HL Hr]]. split; [| split].
      * exists (String a w). rewrite char_of_int_code, append_snoc.
        split; [reflexivity |]. simpl. unfold numeric at 1. now rewrite E.
      * exact HL.
      * destruct Hr as [[c Hc] | Hr]; [left | right; exact Hr].
        exists (code a :: c). simpl. now rewrite Hc.
    + injection H as <- <- <-. split; [| split].
      * now exists "".
      * exact E.
      * left. now exists [].
Qed.

(** A comment stops at a line feed, a carriage return or [EOF]; what it
    discards holds no line break. *)
Lemma skip_comment_result (s : string) :
  forall (L' : Z) (s' : string),
    skip_comment s = (L', s') ->
    (exists body : string,
        codes s = codes body ++ L' :: codes s'
        /\ forallb in_comment (codes body) = true
        /\ in_comment L' = false)
    \/ (L' = EOF /\ s' = "").
Proof.
  induction s as [| a s IH]; intros L' s' H; simpl in H.
  - injection H as <- <-. right. now split.
  - rewrite code_not_EOF in H. simpl in H.
    destruct (negb (code a =? 10) && negb (code a =? 13)) eqn:E.
    + destruct (IH _ _ H) as [[body [Hc [Hb HL]]] | Hr]; [left | right; exact Hr].
      exists (String a body). simpl. rewrite Hc. unfold in_comment at 1.
      rewrite E. now repeat split.
    + injection H as <- <-. left. exists "". now repeat split.
Qed.

(** ** The outcomes of a call *)

Section Outcomes.

Context {TK : TokenKinds} {LC : LibC}.

Lemma raw_character_intro (L : Z) :
  isspace L = false -> isalpha L = false ->
  (isdigit L || (L =? code ".")) = false ->
  (L =? code "#") = false -> (L =? EOF) = false ->
  raw_character L = true.
Proof.
  intros H1 H2 H3 H4 H5. unfold raw_character, numeric.
  now rewrite H1, H2, H3, H4, H5.
Qed.

(** Every result of [gettok] comes out of one of six paths through its
    body; a property that holds on each of them, and is carried through
    the nested call after a comment, holds of every call. *)
Section Cases.

Variable P : Lexer -> Process -> Z -> Lexer -> Process -> Prop.

Hypothesis on_word :
  forall (this : Lexer) (p : Process) (L : Z) (s id : string) (L' : Z) (s' : string),
    skip_space (LastChar p) (stdin p) = (L, s) ->
    isalpha L = true ->
    read_identifier (String (char_of_int L) "") s = (id, L', s') ->
    P this p (keyword_or_identifier id)
      {| identifierStr_ := id; numVal_ := numVal_ this |}
      {| LastChar := L'; stdin := s' |}.

Hypothesis on_number :
  forall (this : Lexer) (p : Process) (L : Z) (s NumStr : string) (L' : Z)
         (s' : string),
    skip_space (LastChar p) (stdin p) = (L, s) ->
    isalpha L = false ->
    numeric L = true ->
    read_number "" L s = (NumStr, L', s') ->
    P this p tok_number
      {| identifierStr_ := identifierStr_ this; numVal_ := strtod NumStr |}
      {| LastChar := L'; stdin := s' |}.

Hypothesis on_comment :
  forall (this : Lexer) (p : Process) (s : string) (L' : Z) (s' : string)
         (k : Z) (this' : Lexer) (p' : Process),
    skip_space (LastChar p) (stdin p) = (code "#", s) ->
    skip_comment s = (L', s') ->
    L' <> EOF ->
    P this {| LastChar := L'; stdin := s' |} k this' p' ->
    P this p k this' p'.

Hypothesis on_comment_to_EOF :
  forall (this : Lexer) (p : Process) (s s' : string),
    skip_space (LastChar p) (stdin p) = (code "#", s) ->
    skip_comment s = (EOF, s') ->
    P this p tok_eof this {| LastChar := EOF; stdin := s' |}.

Hypothesis on_EOF :
  forall (this : Lexer) (p : Process) (s : string),
    skip_space (LastChar p) (stdin p) = (EOF, s) ->
    P this p tok_eof this {| LastChar := EOF; stdin := s |}.

Hypothesis on_character :
  forall (this : Lexer) (p : Process) (L : Z) (s : string),
    skip_space (LastChar p) (stdin p) = (L, s) ->
    raw_character L = true ->
    P this p L this
      {| LastChar := fst (advance s); stdin := snd (advance s) |}.

Lemma gettok_rec_cases (n : nat) :
  forall (this : Lexer) (p : Process) (k : Z) (this' : Lexer) (p' : Process),
    gettok_rec n this p = Some (k, this', p') -> P this p k this' p'.
Proof.
  induction n as [| n IH]; intros this p k this' p' H; [discriminate |].
  cbn [gettok_rec] in H.
  pose proof (skip_space_result (stdin p) (LastChar p)) as [Hsp _].
  destruct (skip_space (LastChar p) (stdin p)) as [L s] eqn:Eskip.
  simpl in Hsp.
  destruct (isalpha L) eqn:Ealpha.
  { destruct (read_identifier _ s) as [[id L'] s'] eqn:Eid.
    injection H as <- <- <-. now apply (on_word this p L s). }
  destruct (isdigit L || (L =? code ".")) eqn:Enum.
  { destruct (read_number _ L s) as [[NumStr L'] s'] eqn:Enumber.
    injection H as <- <- <-. now apply (on_number this p L s). }
  assert (Hlast : (L =? code "#") = false ->
                  Some (eof_or_char this L s) = Some (k, this', p') ->
                  P this p k this' p').
  { intros Ehash E. injection E as E. unfold eof_or_char in E.
    destruct (L =? EOF) eqn:Eeof.
    - apply Z.eqb_eq in Eeof. subst L. injection E as <- <- <-.
      now apply on_EOF.
    - pose proof (on_character this p L s Eskip
                    (raw_character_intro L Hsp Ealpha Enum Ehash Eeof)) as Hc.
      destruct (advance s) as [L' s']. injection E as <- <- <-. exact Hc. }
  destruct (L =? code "#") eqn:Ehash; [| now apply Hlast].
  apply Z.eqb_eq in Ehash. subst L.
  destruct (skip_comment s) as [L' s'] eqn:Ecomment.
  destruct (Z.eqb_spec L' EOF) as [-> | Hne]; simpl in H.
  - injection H as <- <- <-. now apply (on_comment_to_EOF this p s).
  - apply (on_comment this p s L' s'); try assumption. now apply IH.
Qed.

End Cases.

End Outcomes.

(** The case analysis, with the names of the parts of each path. *)
Ltac by_gettok_cases :=
  match goal with
  | |- forall this p k this' p',
        gettok_rec ?n this p = Some (k, this', p') -> @?Q this p k this' p' =>
      refine (gettok_rec_cases Q _ _ _ _ _ _ n); cbv beta
  end;
  [ intros this p L s id L' s' Hskip Halpha Hread
  | intros this p L s NumStr L' s' Hskip Halpha Hnumeric Hread
  | intros this p s L' s' k this' p' Hskip Hcomment HnotEOF IH
  | intros this p s s' Hskip Hcomment
  | intros this p s Hskip
  | intros this p L s Hskip Hraw ].

(** ** What a call does to the input *)

Lemma codes_range (s : string) (x : Z) : In x (codes s) -> 0 <= x < 256.
Proof.
  induction s as [| a s IH]; simpl; [contradiction |].
  intros [<- | H]; [apply code_range | now apply IH].
Qed.

(** A step made of [getchar] calls leaves a byte of the input pending, or
    [EOF] with nothing left. *)
Lemma input_step_well_formed (s : string) (L' : Z) (s' : string) :
  (exists consumed : list Z, codes s = consumed ++ L' :: codes s')
  \/ (L' = EOF /\ s' = "") ->
  well_formed {| LastChar := L'; stdin := s' |}.
Proof.
  intros [[c H] | [-> ->]]; unfold well_formed, EOF; simpl.
  - assert (Hr : 0 <= L' < 256).
    { apply (codes_range s). rewrite H. apply in_or_app. right. now left. }
    split; lia.
  - split; [lia | reflexivity].
Qed.

Lemma input_step_length (s : string) (L' : Z) (s' : string) :
  (exists consumed : list Z, codes s = consumed ++ L' :: codes s')
  \/ (L' = EOF /\ s' = "") ->
  (unread_length {| LastChar := L'; stdin := s' |} <= String.length s)%nat.
Proof.
  intros [[c H] | [-> ->]]; unfold unread_length; simpl; [| lia].
  apply (f_equal (@List.length Z)) in H.
  rewrite List.length_app in H. simpl in H. rewrite !codes_length in H.
  destruct (L' =? EOF); lia.
Qed.

(** White space is skipped to a tail of the input; [EOF] comes up pending
    only when it was pending already or nothing is left. *)
Lemma skip_space_at_EOF (L : Z) (s s' : string) :
  skip_space L s = (EOF, s') -> (L = EOF /\ s' = s) \/ s' = "".
Proof.
  intros H. pose proof (skip_space_result s L) as [_ Hr]. rewrite H in Hr.
  simpl in Hr. destruct Hr as [[c Hc] | [_ ->]]; [| now right].
  destruct c as [| x c]; simpl in Hc.
  - injection Hc as -> Hs. apply codes_inj in Hs. now left.
  - injection Hc as _ Hc. exfalso.
    assert (Hin : In EOF (codes s)).
    { rewrite Hc. apply in_or_app. right. now left. }
    apply codes_range in Hin. unfold EOF in Hin. lia.
Qed.

Lemma skip_space_length_le (L : Z) (s : string) :
  L <> EOF ->
  (unread_length {| LastChar := fst (skip_space L s);
                    stdin := snd (skip_space L s) |}
   <= S (String.length s))%nat.
Proof.
  intros _. pose proof (skip_space_length s L) as H.
  unfold unread_length. simpl.
  destruct (fst (skip_space L s) =? EOF); lia.
Qed.

Lemma skip_comment_step (s : string) (L' : Z) (s' : string) :
  skip_comment s = (L', s') ->
  (exists consumed : list Z, codes s = consumed ++ L' :: codes s')
  \/ (L' = EOF /\ s' = "").
Proof.
  intros H.
  destruct (skip_comment_result s L' s' H) as [[body [Hc _]] | Hr];
    [left; now exists (codes body) | right; exact Hr].
Qed.

Lemma skip_comment_at_EOF (s s' : string) :
  skip_comment s = (EOF, s') -> s' = "".
Proof.
  intros H.
  destruct (skip_comment_result s EOF s' H) as [[body [_ [_ Hc]]] | [_ Hr]];
    [discriminate Hc | exact Hr].
Qed.

Lemma advance_step (s : string) :
  (exists consumed : list Z,
      codes s = consumed ++ fst (advance s) :: codes (snd (advance s)))
  \/ (fst (advance s) = EOF /\ snd (advance s) = "").
Proof.
  destruct s as [| a s]; simpl; [right; now split | left; now exists []].
Qed.

Section Stream.

Context {TK : TokenKinds} {LC : LibC}.

(** A call depends on the process only through what is left once white
    space is skipped. *)
Lemma gettok_rec_skip (n : nat) (this : Lexer) (p q : Process) :
  skip_space (LastChar p) (stdin p) = skip_space (LastChar q) (stdin q) ->
  gettok_rec n this p = gettok_rec n this q.
Proof.
  intros H. destruct n as [| n]; [reflexivity |].
  cbn [gettok_rec]. now rewrite H.
Qed.

Lemma skip_space_prefix (ws : list Z) :
  forall (L : Z) (s : string) (L' : Z) (s' : string),
    forallb isspace ws = true ->
    L :: codes s = ws ++ L' :: codes s' ->
    skip_space L s = skip_space L' s'.
Proof.
  induction ws as [| w ws IH]; intros L s L' s' Hws H; simpl in *.
  - injection H as -> Hs. apply codes_inj in Hs. now subst.
  - apply andb_true_iff in Hws as [Hw Hws]. injection H as -> Hs.
    destruct s as [| a s]; simpl in Hs; [destruct ws; discriminate |].
    simpl. rewrite Hw. now apply IH.
Qed.

(** X1. White space before the pending text does not matter: a call made
    with it still to be skipped returns the token, the payloads and the
    process state of a call made after it. *)
Theorem gettok_skips_leading_space (this : Lexer) (p q : Process)
    (ws : list Z) :
  forallb isspace ws = true ->
  unread p = ws ++ unread q ->
  gettok this p = gettok this q.
Proof.
  intros Hws H. unfold unread in H.
  assert (Hlen : (String.length (stdin q) <= String.length (stdin p))%nat).
  { apply (f_equal (@List.length Z)) in H.
    rewrite List.length_app in H. simpl in H. rewrite !codes_length in H.
    lia. }
  unfold gettok at 1.
  rewrite (gettok_rec_skip _ this p q
             (skip_space_prefix ws _ _ _ _ Hws H)).
  apply gettok_rec_enough. lia.
Qed.

Lemma skip_space_blank (s : string) :
  forall L : Z,
    forallb isspace (L :: codes s) = true -> skip_space L s = (EOF, "").
Proof.
  induction s as [| a s IH]; intros L H; simpl in *;
    apply andb_true_iff in H as [HL H]; rewrite HL; [reflexivity |].
  now apply IH.
Qed.

(** X2. When nothing but white space is left, the pending character
    included, as on an empty or blank input, [gettok] returns [tok_eof],
    leaves the payloads alone and leaves [EOF] pending. *)
Theorem gettok_blank_input (this : Lexer) (p : Process) :
  forallb isspace (unread p) = true ->
  gettok this p = Some (tok_eof, this, {| LastChar := EOF; stdin := "" |}).
Proof.
  intros H. unfold gettok. cbn [gettok_rec].
  now rewrite (skip_space_blank _ _ H).
Qed.

(** X3. [gettok] never goes back in the input and drops no byte between
    the pending character and the input: after a call, the pending
    character followed by the input left is a tail of what it was before,
    unless the input is used up and [EOF] is pending. *)
Theorem gettok_reads_on (this : Lexer) (p : Process)
    (k : Z) (this' : Lexer) (p' : Process) :
  gettok this p = Some (k, this', p') ->
  reads_on (LastChar p) (stdin p) (LastChar p') (stdin p').
Proof.
  unfold gettok. generalize (S (String.length (stdin p))) as n. intros n.
  revert this p k this' p'.
  by_gettok_cases; simpl;
    pose proof (skip_space_result (stdin p) (LastChar p)) as [_ Hr];
    rewrite Hskip in Hr; simpl in Hr.
  - eapply reads_on_trans; [exact Hr |]. apply reads_on_input.
    now apply (read_identifier_result _ _ _ _ _ Hread).
  - eapply reads_on_trans; [exact Hr |]. apply reads_on_input.
    now apply (read_number_result _ _ _ _ _ _ Hread).
  - eapply reads_on_trans; [exact Hr |].
    eapply reads_on_trans; [| exact IH].
    apply reads_on_input. now apply skip_comment_step.
  - right. split; [reflexivity | now apply (skip_comment_at_EOF s)].
  - exact Hr.
  - eapply reads_on_trans; [exact Hr |]. apply reads_on_input.
    apply advance_step.
Qed.

Lemma unread_length_pending (L : Z) (s : string) :
  L <> EOF ->
  unread_length {| LastChar := L; stdin := s |} = S (String.length s).
Proof.
  intros H. apply Z.eqb_neq in H. unfold unread_length. simpl. now rewrite H.
Qed.

Lemma gettok_rec_uses_input (n : nat) :
  forall (this : Lexer) (p : Process) (k : Z) (this' : Lexer) (p' : Process),
    gettok_rec n this p = Some (k, this', p') ->
    LastChar p <> EOF ->
    (unread_length p' < unread_length p)%nat.
Proof.
  by_gettok_cases; intros Hne;
    pose proof (skip_space_length (stdin p) (LastChar p)) as Hlen;
    rewrite Hskip in Hlen; simpl in Hlen;
    destruct p as [L0 s0]; simpl in *;
    rewrite (unread_length_pending L0 s0 Hne).
  - pose proof (input_step_length s L' s'
                  (proj2 (proj2 (read_identifier_result _ _ _ _ _ Hread)))).
    lia.
  - pose proof (input_step_length s L' s'
                  (proj2 (proj2 (read_number_result _ _ _ _ _ _ Hread)))).
    lia.
  - pose proof (input_step_length s L' s' (skip_comment_step _ _ _ Hcomment))
      as Hc.
    specialize (IH HnotEOF).
    rewrite (unread_length_pending L' s' HnotEOF) in Hc, IH. lia.
  - rewrite (skip_comment_at_EOF _ _ Hcomment). unfold unread_length. simpl.
    lia.
  - destruct (skip_space_at_EOF _ _ _ Hskip) as [[He _] | ->];
      [contradiction |]. unfold unread_length. simpl. lia.
  - pose proof (input_step_length s _ _ (advance_step s)). lia.
Qed.

(** X4. Unless [EOF] is pending, a call uses up input: the pending
    character and the input left are, together, strictly fewer than they
    were. *)
Theorem gettok_progress (this : Lexer) (p : Process)
    (k : Z) (this' : Lexer) (p' : Process) :
  LastChar p <> EOF ->
  gettok this p = Some (k, this', p') ->
  (unread_length p' < unread_length p)%nat.
Proof.
  intros Hne H. exact (gettok_rec_uses_input _ _ _ _ _ _ H Hne).
Qed.

Lemma calls_at_EOF (n : nat) (this : Lexer) (p : Process) :
  LastChar p = EOF -> calls n this p = Some (repeat tok_eof n, this, p).
Proof.
  intros H. induction n as [| n IH]; [reflexivity |].
  cbn [calls repeat]. now rewrite (gettok_at_EOF this p H), IH.
Qed.

Lemma calls_reach_EOF (n : nat) :
  forall (this : Lexer) (p : Process),
    (unread_length p <= n)%nat ->
    exists ks this' p',
      calls n this p = Some (ks, this', p') /\ LastChar p' = EOF.
Proof.
  induction n as [| n IH]; intros this p Hn.
  - exists [], this, p. split; [reflexivity |].
    unfold unread_length in Hn.
    destruct (Z.eqb_spec (LastChar p) EOF); [assumption | lia].
  - destruct (Z.eq_dec (LastChar p) EOF) as [He | Hne].
    + exists (repeat tok_eof (S n)), this, p.
      split; [now apply calls_at_EOF | exact He].
    + destruct (gettok_rec_total (S (String.length (stdin p))) this p)
        as [[[k this1] p1] H1]; [lia |].
      pose proof (gettok_rec_uses_input _ _ _ _ _ _ H1 Hne) as Hlt.
      destruct (IH this1 p1) as [ks [this' [p' [Hc He]]]]; [lia |].
      exists (k :: ks), this', p'. split; [| exact He].
      cbn [calls]. unfold gettok. now rewrite H1, Hc.
Qed.

(** Calls made one after the other add up. *)
Lemma calls_app (n m : nat) :
  forall (this : Lexer) (p : Process) ks this' p' ks' this'' p'',
    calls n this p = Some (ks, this', p') ->
    calls m this' p' = Some (ks', this'', p'') ->
    calls (n + m) this p = Some (ks ++ ks', this'', p'').
Proof.
  induction n as [| n IH]; intros this p ks this' p' ks' this'' p'' Hn Hm;
    simpl in *.
  - injection Hn as <- <- <-. exact Hm.
  - destruct (gettok this p) as [[[k this1] p1] |]; [| discriminate].
    destruct (calls n this1 p1) as [[[ks1 this2] p2] |] eqn:E; [| discriminate].
    injection Hn as <- <- <-.
    now rewrite (IH _ _ _ _ _ _ _ _ E Hm).
Qed.

(** X5. The tokens of an input are finitely many: after as many calls as
    there are characters unread, [EOF] is pending, and the calls made from
    then on all return [tok_eof] and change nothing. *)
Theorem calls_end_with_eof (this : Lexer) (p : Process) :
  exists ks this' p',
    calls (unread_length p) this p = Some (ks, this', p')
    /\ LastChar p' = EOF
    /\ forall m : nat,
         calls (unread_length p + m) this p =
         Some (ks ++ repeat tok_eof m, this', p').
Proof.
  destruct (calls_reach_EOF (unread_length p) this p (le_n _))
    as [ks [this' [p' [Hc He]]]].
  exists ks, this', p'. split; [exact Hc | split; [exact He |]].
  intros m. apply (calls_app _ _ _ _ _ _ _ _ _ _ Hc).
  now apply calls_at_EOF.
Qed.

(** X6. A call returns [tok_eof], [tok_number], the kind of a keyword or
    of an identifier, or else the value of a character that is neither
    white space, a letter, a digit, a point, [#] nor [EOF]: none of these
    is ever returned as a token of its own. *)
Theorem gettok_kind (this : Lexer) (p : Process)
    (k : Z) (this' : Lexer) (p' : Process) :
  gettok this p = Some (k, this', p') ->
  k = tok_eof \/ k = tok_number \/ In k word_kinds \/ raw_character k = true.
Proof.
  unfold gettok. generalize (S (String.length (stdin p))) as n. intros n.
  revert this p k this' p'.
  by_gettok_cases; try tauto.
  right. right. left. apply keyword_or_identifier_kind.
Qed.

Lemma keyword_or_identifier_cases (id : string) :
  In (id, keyword_or_identifier id) keywords
  \/ (keyword_or_identifier id = tok_identifier
      /\ ~ In id (map fst keywords)).
Proof.
  destruct (in_dec string_dec id (map fst keywords)) as [Hin | Hout].
  - left. simpl in Hin.
    repeat destruct Hin as [Hin | Hin]; try contradiction; subst id;
      simpl; tauto.
  - right. split; [now apply keyword_or_identifier_other | exact Hout].
Qed.

Lemma isalpha_range (L : Z) : isalpha L = true -> 0 <= L < 256.
Proof.
  unfold isalpha, isupper, islower. lia.
Qed.

Lemma numeric_range (L : Z) : numeric L = true -> 0 <= L < 256.
Proof.
  unfold numeric, isdigit, code. simpl. lia.
Qed.

(** X7. The identifier payload is only ever set to a word
    [[a-zA-Z][a-zA-Z0-9]*] read as far as it goes: after a call, either
    [getId] is what it was, or it is such a word, the pending character
    is not alphanumeric, and the kind returned is that of the keyword the
    word is, or [tok_identifier] when it is none. *)
Theorem gettok_identifier_payload (this : Lexer) (p : Process)
    (k : Z) (this' : Lexer) (p' : Process) :
  gettok this p = Some (k, this', p') ->
  getId this' = getId this
  \/ (is_word (getId this') = true
      /\ isalnum (LastChar p') = false
      /\ (In (getId this', k) keywords
          \/ (k = tok_identifier /\ ~ In (getId this') (map fst keywords)))).
Proof.
  unfold gettok. generalize (S (String.length (stdin p))) as n. intros n.
  revert this p k this' p'.
  by_gettok_cases; try (left; reflexivity); [| exact IH].
  right. unfold getId. simpl.
  destruct (read_identifier_result _ _ _ _ _ Hread) as [[w [-> Hw]] [HL _]].
  split; [| split; [exact HL | apply keyword_or_identifier_cases]].
  simpl. rewrite (code_char_of_int L (isalpha_range L Halpha)).
  now rewrite Halpha, Hw.
Qed.

(** X8. The number payload is only ever set to what [strtod] makes of a
    text [[0-9.]+] read as far as it goes: after a call, either [getNum]
    is what it was, or it is the conversion of such a text, the kind
    returned is [tok_number] and the pending character is neither a digit
    nor a point. *)
Theorem gettok_number_payload (this : Lexer) (p : Process)
    (k : Z) (this' : Lexer) (p' : Process) :
  gettok this p = Some (k, this', p') ->
  getNum this' = getNum this
  \/ (exists text : string,
         is_number_text text = true
         /\ getNum this' = strtod text
         /\ k = tok_number
         /\ numeric (LastChar p') = false).
Proof.
  unfold gettok. generalize (S (String.length (stdin p))) as n. intros n.
  revert this p k this' p'.
  by_gettok_cases; try (left; reflexivity); [| exact IH].
  right. unfold getNum. simpl.
  destruct (read_number_result _ _ _ _ _ _ Hread) as [[w [-> Hw]] [HL _]].
  exists (String (char_of_int L) w). simpl.
  rewrite (code_char_of_int L (numeric_range L Hnumeric)).
  now rewrite Hnumeric, Hw.
Qed.

Lemma gettok_rec_well_formed (n : nat) :
  forall (this : Lexer) (p : Process) (k : Z) (this' : Lexer) (p' : Process),
    gettok_rec n this p = Some (k, this', p') ->
    well_formed p -> well_formed p'.
Proof.
  by_gettok_cases; intros Hwf.
  - apply (input_step_well_formed s).
    now apply (read_identifier_result _ _ _ _ _ Hread).
  - apply (input_step_well_formed s).
    now apply (read_number_result _ _ _ _ _ _ Hread).
  - apply IH. apply (input_step_well_formed s). now apply skip_comment_step.
  - rewrite (skip_comment_at_EOF _ _ Hcomment).
    apply (input_step_well_formed ""). right. now split.
  - destruct (skip_space_at_EOF _ _ _ Hskip) as [[He ->] | ->].
    + destruct Hwf as [_ Hs]. rewrite (Hs He).
      apply (input_step_well_formed ""). right. now split.
    + apply (input_step_well_formed ""). right. now split.
  - apply (input_step_well_formed s). apply advance_step.
Qed.

(** X9. The pending character is always [EOF] or a byte, so the tests of
    <cctype> are never given a value they are not defined on, and [EOF]
    is pending only when the input is used up: this holds before the
    first call and a call keeps it. *)
Theorem gettok_well_formed :
  (forall input : string, well_formed (start input))
  /\ forall (this : Lexer) (p : Process) (k : Z) (this' : Lexer) (p' : Process),
       well_formed p ->
       gettok this p = Some (k, this', p') ->
       well_formed p'.
Proof.
  split.
  - intros input. unfold well_formed, start, EOF. simpl.
    pose proof (code_range " "). split; [lia | discriminate].
  - intros this p k this' p' Hwf H.
    exact (gettok_rec_well_formed _ _ _ _ _ _ H Hwf).
Qed.

Lemma comment_starts_tail (L : Z) (s : string) (L' : Z) (s' : string) :
  reads_on L s L' s' ->
  (comment_starts {| LastChar := L'; stdin := s' |}
   <= comment_starts {| LastChar := L; stdin := s |})%nat.
Proof.
  unfold comment_starts, unread. simpl LastChar. simpl stdin.
  intros [[c H] | [-> ->]].
  - rewrite H, count_occ_app. lia.
  - simpl. destruct (Z.eq_dec EOF (code "#")); [discriminate | lia].
Qed.

(** The nested calls are no more than the [#] still to be scanned. *)
Lemma gettok_rec_depth (n : nat) :
  forall (this : Lexer) (p : Process),
    (comment_starts p < n)%nat -> exists r, gettok_rec n this p = Some r.
Proof.
  induction n as [| n IH]; intros this p Hn; [lia |].
  cbn [gettok_rec].
  pose proof (skip_space_result (stdin p) (LastChar p)) as [_ Hr].
  apply comment_starts_tail in Hr.
  destruct (skip_space (LastChar p) (stdin p)) as [L s]. simpl in Hr.
  destruct (isalpha L).
  { destruct (read_identifier _ s) as [[id L'] s']. eexists. reflexivity. }
  destruct (isdigit L || (L =? code ".")).
  { destruct (read_number _ L s) as [[NumStr L'] s']. eexists. reflexivity. }
  destruct (Z.eqb_spec L (code "#")) as [-> | _]; [| eexists; reflexivity].
  pose proof (skip_comment_step s) as Hc.
  destruct (skip_comment s) as [L' s']. specialize (Hc _ _ eq_refl).
  destruct (Z.eqb_spec L' EOF) as [-> | Hne]; simpl; [eexists; reflexivity |].
  apply IH.
  pose proof (comment_starts_tail (code "#") s L' s' (reads_on_input _ _ _ _ Hc))
    as Ht.
  assert (Hs : (comment_starts {| LastChar := code "#"; stdin := s |}
                = S (count_occ Z.eq_dec (codes s) (code "#")))%nat).
  { unfold comment_starts, unread. simpl LastChar. simpl stdin.
    now rewrite count_occ_cons_eq. }
  assert (Hq : (comment_starts {| LastChar := L'; stdin := s' |}
                <= count_occ Z.eq_dec (codes s) (code "#"))%nat).
  { unfold comment_starts, unread. simpl LastChar. simpl stdin.
    destruct Hc as [[c Hc] | [HL _]]; [| contradiction].
    rewrite Hc, count_occ_app. lia. }
  destruct p as [L0 s0]. simpl in *. lia.
Qed.

(** X10. The nesting of [return gettok ();] is bounded by the comments, not
    by the length of the input: a depth above the number of [#] among the
    characters still to be scanned gives the result of the call; without
    any [#], no nested call is made. *)
Theorem gettok_depth_by_comments (n : nat) (this : Lexer) (p : Process) :
  (comment_starts p < n)%nat -> gettok_rec n this p = gettok this p.
Proof.
  intros Hn.
  destruct (gettok_rec_depth n this p Hn) as [r Hr].
  destruct (gettok_rec_total (S (String.length (stdin p))) this p) as [r' Hr'];
    [lia |].
  unfold gettok. rewrite Hr, Hr'.
  pose proof (gettok_rec_mono _ _ _ _ (Nat.max n (S (String.length (stdin p))))
                Hr (Nat.le_max_l _ _)) as H1.
  pose proof (gettok_rec_mono _ _ _ _ (Nat.max n (S (String.length (stdin p))))
                Hr' (Nat.le_max_r _ _)) as H2.
  congruence.
Qed.

Lemma read_identifier_text (s : string) :
  forall (id id' : string) (L' : Z) (s' : string),
    read_identifier id s = (id', L', s') ->
    exists w : string,
      id' = (id ++ w)%string
      /\ (codes s = codes w ++ L' :: codes s'
          \/ (L' = EOF /\ s' = "" /\ codes s = codes w)).
Proof.
  induction s as [| a s IH]; intros id id' L' s' H; simpl in H.
  - injection H as <- <- <-. exists "". rewrite append_empty_r.
    split; [reflexivity | right; now repeat split].
  - destruct (isalnum (code a)).
    + rewrite char_of_int_code in H.
      destruct (IH _ _ _ _ H) as [w [-> Hw]].
      exists (String a w). rewrite append_snoc. split; [reflexivity |].
      simpl. destruct Hw as [-> | [-> [-> ->]]]; [now left | right].
      now repeat split.
    + injection H as <- <- <-. exists "". rewrite append_empty_r.
      split; [reflexivity | now left].
Qed.

Lemma read_number_text (s : string) :
  forall (NumStr : string) (L : Z) (NumStr' : string) (L' : Z) (s' : string),
    read_number NumStr L s = (NumStr', L', s') ->
    exists w : string,
      NumStr' = (NumStr ++ String (char_of_int L) w)%string
      /\ (codes s = codes w ++ L' :: codes s'
          \/ (L' = EOF /\ s' = "" /\ codes s = codes w)).
Proof.
  induction s as [| a s IH]; intros acc L acc' L' s' H; simpl in H.
  - injection H as <- <- <-. exists "".
    split; [reflexivity | right; now repeat split].
  - destruct (isdigit (code a) || (code a =? code ".")).
    + destruct (IH _ _ _ _ _ H) as [w [-> Hw]].
      exists (String a w). rewrite char_of_int_code, append_snoc.
      split; [reflexivity |].
      simpl. destruct Hw as [-> | [-> [-> ->]]]; [now left | right].
      now repeat split.
    + injection H as <- <- <-. exists "". split; [reflexivity | now left].
Qed.

(** A text found after some more characters are skipped is found all the
    same. *)
Lemma lexeme_at_later (p q : Process) (text : string) (p' : Process)
    (skipped : list Z) :
  unread p = skipped ++ unread q -> lexeme_at q text p' -> lexeme_at p text p'.
Proof.
  intros Hp [before [H | [H1 [H2 H]]]]; exists (skipped ++ before);
    [left | right; split; [exact H1 | split; [exact H2 |]]];
    rewrite Hp, H; now rewrite <- app_assoc.
Qed.

(** The text that starts at the pending character [L], a byte, and goes on
    with [w] in the input. *)
Lemma lexeme_at_pending (L : Z) (s w : string) (L' : Z) (s' : string) :
  0 <= L < 256 ->
  (codes s = codes w ++ L' :: codes s'
   \/ (L' = EOF /\ s' = "" /\ codes s = codes w)) ->
  lexeme_at {| LastChar := L; stdin := s |} (String (char_of_int L) w)
            {| LastChar := L'; stdin := s' |}.
Proof.
  intros HL H. exists []. unfold unread. simpl.
  rewrite (code_char_of_int L HL).
  destruct H as [-> | [-> [-> ->]]]; [left | right]; now repeat split.
Qed.

Lemma gettok_rec_lexeme (n : nat) :
  forall (this : Lexer) (p : Process) (k : Z) (this' : Lexer) (p' : Process),
    gettok_rec n this p = Some (k, this', p') ->
    (getId this' = getId this \/ lexeme_at p (getId this') p')
    /\ (getNum this' = getNum this
        \/ exists text : string,
             getNum this' = strtod text /\ lexeme_at p text p').
Proof.
  by_gettok_cases; try (split; left; reflexivity);
    pose proof (skip_space_result (stdin p) (LastChar p)) as [_ Hr];
    rewrite Hskip in Hr; simpl in Hr.
  - split; [right | left; reflexivity]. unfold getId. simpl.
    destruct Hr as [[c Hc] | [-> _]]; [| discriminate Halpha].
    apply (lexeme_at_later p {| LastChar := L; stdin := s |} _ _ c Hc).
    destruct (read_identifier_text _ _ _ _ _ Hread) as [w [-> Hw]].
    now apply lexeme_at_pending; [apply isalpha_range |].
  - split; [left; reflexivity | right]. unfold getNum. simpl.
    destruct Hr as [[c Hc] | [-> _]]; [| discriminate Hnumeric].
    destruct (read_number_text _ _ _ _ _ _ Hread) as [w [-> Hw]].
    exists (String (char_of_int L) w). split; [reflexivity |].
    apply (lexeme_at_later p {| LastChar := L; stdin := s |} _ _ c Hc).
    now apply lexeme_at_pending; [apply numeric_range |].
  - destruct Hr as [[c Hc] | [Hf _]]; [| discriminate Hf].
    destruct (skip_comment_step _ _ _ Hcomment) as [[c' Hc'] | [Hf _]];
      [| contradiction].
    assert (Hp : unread p
                 = (c ++ code "#" :: c')
                   ++ unread {| LastChar := L'; stdin := s' |}).
    { unfold unread in *. simpl LastChar. simpl stdin.
      rewrite Hc, Hc', <- app_assoc. reflexivity. }
    destruct IH as [[IHid | IHid] [IHnum | [text [IHnum IHtext]]]]; split;
      try (left; assumption); right.
    + exists text. split; [exact IHnum |].
      exact (lexeme_at_later _ _ _ _ _ Hp IHtext).
    + exact (lexeme_at_later _ _ _ _ _ Hp IHid).
    + exact (lexeme_at_later _ _ _ _ _ Hp IHid).
    + exists text. split; [exact IHnum |].
      exact (lexeme_at_later _ _ _ _ _ Hp IHtext).
Qed.

(** X11. A payload is a piece of the input where it stands: when a call
    sets [getId], the new text is a run of the characters that were still
    to be scanned, and the scan now stands right after it; when a call
    sets [getNum], the value is [strtod] of such a run. *)
Theorem gettok_lexeme_in_input (this : Lexer) (p : Process)
    (k : Z) (this' : Lexer) (p' : Process) :
  gettok this p = Some (k, this', p') ->
  (getId this' = getId this \/ lexeme_at p (getId this') p')
  /\ (getNum this' = getNum this
      \/ exists text : string,
           getNum this' = strtod text /\ lexeme_at p text p').
Proof.
  apply gettok_rec_lexeme.
Qed.

(** ** The payloads over a sequence of calls *)

Lemma skip_space_range (L0 : Z) (s0 : string) :
  EOF <= L0 < 256 -> EOF <= fst (skip_space L0 s0) < 256.
Proof.
  intros H0. pose proof (skip_space_result s0 L0) as [_ [[c Hc] | [-> _]]];
    [| unfold EOF; lia].
  assert (Hin : In (fst (skip_space L0 s0)) (L0 :: codes s0)).
  { rewrite Hc. apply in_or_app. right. now left. }
  destruct Hin as [<- | Hin]; [exact H0 |].
  apply codes_range in Hin. unfold EOF. lia.
Qed.

(** What a call stores, path by path: the number path stores the
    conversion of the text it read, the word path the word it read, the
    other paths nothing. *)
Lemma gettok_rec_stores (n : nat) :
  forall (this : Lexer) (p : Process) (k : Z) (this' : Lexer) (p' : Process),
    gettok_rec n this p = Some (k, this', p') ->
    well_formed p ->
    (exists text : string,
        is_number_text text = true /\ lexeme_at p text p'
        /\ k = tok_number
        /\ this' = mkLexer LC (identifierStr_ this) (strtod text))
    \/ (exists id : string,
           is_word id = true /\ lexeme_at p id p'
           /\ k = keyword_or_identifier id
           /\ this' = mkLexer LC id (numVal_ this))
    \/ ((k = tok_eof \/ (raw_character k = true /\ 0 <= k < 256))
        /\ this' = this).
Proof.
  by_gettok_cases; intros Hwf;
    try (right; right; split; [left |]; reflexivity);
    pose proof (skip_space_result (stdin p) (LastChar p)) as [_ Hr];
    pose proof (skip_space_range (LastChar p) (stdin p) (proj1 Hwf)) as Hrange;
    rewrite Hskip in Hr, Hrange; simpl in Hr, Hrange.
  - right. left.
    destruct Hr as [[c Hc] | [-> _]]; [| discriminate Halpha].
    destruct (read_identifier_result _ _ _ _ _ Hread) as [[w [Hid Hw]] _].
    destruct (read_identifier_text _ _ _ _ _ Hread) as [w' [Hid' Htext]].
    assert (w' = w) by (rewrite Hid in Hid'; simpl in Hid'; congruence).
    subst w' id. exists (String (char_of_int L) w). simpl.
    rewrite (code_char_of_int L (isalpha_range L Halpha)), Halpha, Hw.
    repeat split.
    apply (lexeme_at_later p {| LastChar := L; stdin := s |} _ _ c Hc).
    now apply lexeme_at_pending; [apply isalpha_range |].
  - left.
    destruct Hr as [[c Hc] | [-> _]]; [| discriminate Hnumeric].
    destruct (read_number_result _ _ _ _ _ _ Hread) as [[w [Hid Hw]] _].
    destruct (read_number_text _ _ _ _ _ _ Hread) as [w' [Hid' Htext]].
    assert (w' = w) by (rewrite Hid in Hid'; simpl in Hid'; congruence).
    subst w' NumStr. exists (String (char_of_int L) w). simpl.
    rewrite (code_char_of_int L (numeric_range L Hnumeric)), Hnumeric, Hw.
    repeat split.
    apply (lexeme_at_later p {| LastChar := L; stdin := s |} _ _ c Hc).
    now apply lexeme_at_pending; [apply numeric_range |].
  - destruct Hr as [[c Hc] | [Hf _]]; [| discriminate Hf].
    pose proof (skip_comment_step _ _ _ Hcomment) as Hstep.
    specialize (IH (input_step_well_formed s L' s' Hstep)).
    destruct Hstep as [[c' Hc'] | [Hf _]]; [| contradiction].
    assert (Hp : unread p
                 = (c ++ code "#" :: c')
                   ++ unread {| LastChar := L'; stdin := s' |}).
    { unfold unread in *. simpl LastChar. simpl stdin.
      rewrite Hc, Hc', <- app_assoc. reflexivity. }
    destruct IH as [[text [H1 [H2 H3]]] | [[id [H1 [H2 H3]]] | IH]].
    + left. exists text. split; [exact H1 | split; [| exact H3]].
      exact (lexeme_at_later _ _ _ _ _ Hp H2).
    + right. left. exists id. split; [exact H1 | split; [| exact H3]].
      exact (lexeme_at_later _ _ _ _ _ Hp H2).
    + right. right. exact IH.
  - right. right. split; [right | reflexivity]. split; [exact Hraw |].
    unfold raw_character in Hraw. unfold EOF in *. lia.
Qed.

Lemma is_word_kind_spec (k : Z) : is_word_kind k = true <-> In k word_kinds.
Proof.
  unfold is_word_kind. rewrite existsb_exists. split.
  - intros [x [Hin Hx]]. apply Z.eqb_eq in Hx. now subst.
  - intros Hin. exists k. split; [exact Hin | apply Z.eqb_refl].
Qed.

Lemma gettok_payload_effect (this : Lexer) (p : Process)
    (k : Z) (this' : Lexer) (p' : Process) :
  kinds_tell_payload ->
  well_formed p ->
  gettok this p = Some (k, this', p') ->
  payload_effect this p k this' p'.
Proof.
  intros [Hnum [Heof Hbyte]] Hwf H.
  destruct (gettok_rec_stores _ _ _ _ _ _ H Hwf)
    as [[text [H1 [H2 [-> ->]]]] | [[id [H1 [H2 [-> ->]]]] | [Hk ->]]];
    unfold payload_effect.
  - split; [| split].
    + intros _. split; [| reflexivity]. exists text. now repeat split.
    + intros Hin. contradiction.
    + intros Hne. contradiction.
  - pose proof (keyword_or_identifier_kind id) as Hkind.
    split; [| split].
    + intros He. rewrite He in Hkind. contradiction.
    + intros _. unfold getId, getNum. simpl.
      repeat split; try assumption. apply keyword_or_identifier_cases.
    + intros _ Hout. contradiction.
  - assert (Hout : ~ In k (tok_number :: word_kinds)).
    { destruct Hk as [-> | [_ Hr]]; [exact Heof |].
      intros Hin. exact (Hbyte k Hin Hr). }
    split; [| split].
    + intros ->. exfalso. apply Hout. now left.
    + intros Hin. exfalso. apply Hout. now right.
    + reflexivity.
Qed.

Lemma calls_trace_payloads (n : nat) :
  kinds_tell_payload ->
  forall (this : Lexer) (p : Process) (tr : list Call),
    well_formed p ->
    calls_trace n this p = Some tr ->
    Forall call_payload tr
    /\ getNum (last_lexer this tr)
       = latest_payload getNum is_number_kind tr (getNum this)
    /\ getId (last_lexer this tr)
       = latest_payload getId is_word_kind tr (getId this).
Proof.
  intros Hkinds.
  induction n as [| n IH]; intros this p tr Hwf H; simpl in H.
  - injection H as <-. repeat split. constructor.
  - destruct (gettok this p) as [[[k this1] p1] |] eqn:E; [| discriminate].
    destruct (calls_trace n this1 p1) as [tr1 |] eqn:E1; [| discriminate].
    injection H as <-.
    pose proof (gettok_payload_effect _ _ _ _ _ Hkinds Hwf E)
      as [Hnum [Hword Hother]].
    destruct (IH this1 p1 tr1 (gettok_rec_well_formed _ _ _ _ _ _ E Hwf) E1)
      as [Hall [IHnum IHid]].
    split; [| split].
    + constructor; [| exact Hall].
      split; cbn [call_kind call_lexer call_before call_after].
      * intros Hk. exact (proj1 (Hnum Hk)).
      * intros Hk. destruct (Hword Hk) as [H1 [H2 _]]. now split.
    + cbn [last_lexer latest_payload call_kind call_lexer].
      rewrite IHnum. f_equal. unfold is_number_kind.
      destruct (Z.eqb_spec k tok_number) as [_ | Hne]; [reflexivity |].
      destruct (in_dec Z.eq_dec k word_kinds) as [Hin | Hout].
      * exact (proj2 (proj2 (proj2 (Hword Hin)))).
      * now rewrite (Hother Hne Hout).
    + cbn [last_lexer latest_payload call_kind call_lexer].
      rewrite IHid. f_equal.
      destruct (is_word_kind k) eqn:Ek; [reflexivity |].
      assert (Hout : ~ In k word_kinds).
      { intros Hin. apply is_word_kind_spec in Hin. congruence. }
      destruct (Z.eq_dec k tok_number) as [He | Hne].
      * exact (proj2 (Hnum He)).
      * now rewrite (Hother Hne Hout).
Qed.

(** C8, as the code has it.  With kinds that tell the payloads apart:
    a call that returns [tok_number] stores in [getNum] the conversion of
    the text [[0-9.]+] it read and leaves [getId] as it was; a call that
    returns a keyword or identifier kind stores in [getId] the word it
    read and leaves [getNum] as it was; any other call leaves the [Lexer]
    object as it was.  Hence, after any number of calls, [getNum] returns
    the payload of the most recent call that returned [tok_number] and
    [getId] the text of the most recent call that returned a keyword or
    identifier kind, each as that call stored it. *)
Theorem gettok_payloads :
  kinds_tell_payload ->
  (forall (this : Lexer) (p : Process) (k : Z) (this' : Lexer) (p' : Process),
      well_formed p ->
      gettok this p = Some (k, this', p') ->
      payload_effect this p k this' p')
  /\ (forall (n : nat) (this : Lexer) (p : Process) (tr : list Call),
        well_formed p ->
        calls_trace n this p = Some tr ->
        Forall call_payload tr
        /\ getNum (last_lexer this tr)
           = latest_payload getNum is_number_kind tr (getNum this)
        /\ getId (last_lexer this tr)
           = latest_payload getId is_word_kind tr (getId this)).
Proof.
  intros Hkinds. split.
  - intros this p k this' p' Hwf H.
    now apply gettok_payload_effect.
  - intros n. now apply calls_trace_payloads.
Qed.

End Stream.

Section StreamRuns.

#[local] Existing Instance sample_kinds.
#[local] Existing Instance decimal_libc.

Lemma gettok_skips_leading_space_witness :
  gettok sample_lexer (start "   x1+") =
  gettok sample_lexer {| LastChar := code "x"; stdin := "1+" |}.
Proof.
  apply (gettok_skips_leading_space sample_lexer (start "   x1+")
           {| LastChar := code "x"; stdin := "1+" |}
           [code " "; code " "; code " "; code " "]);
    reflexivity.
Defined.

Lemma gettok_blank_input_witness :
  gettok sample_lexer (start "") =
  Some (tok_eof, sample_lexer, {| LastChar := EOF; stdin := "" |}).
Proof.
  apply (gettok_blank_input sample_lexer (start "")). reflexivity.
Defined.

Lemma gettok_reads_on_witness :
  reads_on (code " ") " foo(x)" (code "(") "x)".
Proof.
  apply (gettok_reads_on sample_lexer (start " foo(x)") tok_identifier
           (mkLexer decimal_libc "foo" 0%Q)
           {| LastChar := code "("; stdin := "x)" |}).
  reflexivity.
Defined.

Lemma gettok_progress_witness :
  (unread_length {| LastChar := code "("; stdin := "x)" |}
   < unread_length (start " foo(x)"))%nat.
Proof.
  apply (gettok_progress sample_lexer (start " foo(x)") tok_identifier
           (mkLexer decimal_libc "foo" 0%Q)
           {| LastChar := code "("; stdin := "x)" |}).
  - discriminate.
  - reflexivity.
Defined.

Lemma gettok_kind_witness :
  code "(" = tok_eof \/ code "(" = tok_number \/ In (code "(") word_kinds
  \/ raw_character (code "(") = true.
Proof.
  apply (gettok_kind sample_lexer {| LastChar := code "("; stdin := "x)" |}
           (code "(") sample_lexer {| LastChar := code "x"; stdin := ")" |}).
  reflexivity.
Defined.

Lemma gettok_identifier_payload_witness :
  let this' := mkLexer decimal_libc "then" 0%Q in
  getId this' = getId sample_lexer
  \/ (is_word (getId this') = true
      /\ isalnum (code " ") = false
      /\ (In (getId this', tok_then) keywords
          \/ (tok_then = tok_identifier
              /\ ~ In (getId this') (map fst keywords)))).
Proof.
  apply (gettok_identifier_payload sample_lexer (start "then 1") tok_then
           (mkLexer decimal_libc "then" 0%Q)
           {| LastChar := code " "; stdin := "1" |}).
  reflexivity.
Defined.

Lemma gettok_number_payload_witness :
  let this' := mkLexer decimal_libc "" (5 # 10)%Q in
  getNum this' = getNum sample_lexer
  \/ (exists text : string,
         is_number_text text = true
         /\ getNum this' = strtod text
         /\ tok_number = tok_number
         /\ numeric (code ")") = false).
Proof.
  apply (gettok_number_payload sample_lexer (start ".5)") tok_number
           (mkLexer decimal_libc "" (5 # 10)%Q)
           {| LastChar := code ")"; stdin := "" |}).
  reflexivity.
Defined.

Lemma gettok_well_formed_witness :
  well_formed {| LastChar := EOF; stdin := "" |}.
Proof.
  apply (proj2 gettok_well_formed sample_lexer (start "x") tok_identifier
           (mkLexer decimal_libc "x" 0%Q) {| LastChar := EOF; stdin := "" |}).
  - apply (proj1 gettok_well_formed).
  - reflexivity.
Defined.

Lemma gettok_depth_by_comments_witness :
  gettok_rec 1 sample_lexer (start "a long line without comment") =
  gettok sample_lexer (start "a long line without comment")
  /\ gettok_rec 2 sample_lexer (start one_comment_two) =
     gettok sample_lexer (start one_comment_two).
Proof.
  split.
  - apply (gettok_depth_by_comments 1 sample_lexer
             (start "a long line without comment")).
    vm_compute. repeat constructor.
  - apply (gettok_depth_by_comments 2 sample_lexer (start one_comment_two)).
    vm_compute. repeat constructor.
Defined.

Lemma gettok_lexeme_in_input_witness :
  let this' := mkLexer decimal_libc "foo" 0%Q in
  let p := start " foo(x)" in
  let p' := {| LastChar := code "("; stdin := "x)" |} in
  (getId this' = getId sample_lexer \/ lexeme_at p (getId this') p')
  /\ (getNum this' = getNum sample_lexer
      \/ exists text : string,
           getNum this' = strtod text /\ lexeme_at p text p').
Proof.
  apply (gettok_lexeme_in_input sample_lexer (start " foo(x)") tok_identifier
           (mkLexer decimal_libc "foo" 0%Q)
           {| LastChar := code "("; stdin := "x)" |}).
  reflexivity.
Defined.

Lemma sample_kinds_tell_payload : kinds_tell_payload.
Proof.
  unfold kinds_tell_payload. simpl. repeat split.
  - intros H. repeat destruct H as [H | H]; try discriminate H. exact H.
  - intros H. repeat destruct H as [H | H]; try discriminate H. exact H.
  - intros k H [Hk _]. repeat destruct H as [H | H]; try (subst k; lia).
    exact H.
Defined.

Lemma pending_byte_well_formed (c : ascii) (s : string) :
  well_formed {| LastChar := code c; stdin := s |}.
Proof.
  unfold well_formed, EOF. simpl. pose proof (code_range c). split; lia.
Defined.

Lemma gettok_payloads_witness :
  let this1 := mkLexer decimal_libc "x" 0%Q in
  let this2 := mkLexer decimal_libc "x" (7 # 1)%Q in
  let p0 := start "x 7 +" in
  let p1 := {| LastChar := code " "; stdin := "7 +" |} in
  let p2 := {| LastChar := code " "; stdin := "+" |} in
  let p3 := {| LastChar := EOF; stdin := "" |} in
  let tr := [mkCall p0 tok_identifier this1 p1;
             mkCall p1 tok_number this2 p2;
             mkCall p2 (code "+") this2 p3] in
  payload_effect this1 p1 tok_number this2 p2
  /\ payload_effect this2 p2 (code "+") this2 p3
  /\ Forall call_payload tr
  /\ getNum (last_lexer sample_lexer tr) = (7 # 1)%Q
  /\ getId (last_lexer sample_lexer tr) = "x".
Proof.
  intros this1 this2 p0 p1 p2 p3 tr.
  destruct (gettok_payloads sample_kinds_tell_payload) as [Hcall Hseq].
  split; [| split].
  - apply (Hcall this1 p1 tok_number this2 p2); [| reflexivity].
    apply pending_byte_well_formed.
  - apply (Hcall this2 p2 (code "+") this2 p3); [| reflexivity].
    apply pending_byte_well_formed.
  - apply (Hseq 3%nat sample_lexer p0 tr);
      [apply pending_byte_well_formed | reflexivity].
Defined.

End StreamRuns.
